(** * Structural analysis of an agent's connectivity matrix

    A shallow embedding of [structuralAgentAnalysis.py]: the functions that
    classify and count the connected nodes of an agent, count the
    connections between node groups, and assemble the structural report.

    - A connectivity matrix is a two-dimensional numpy array of dtype
      int64, numpy's integer type; it is modelled by its list of rows, with
      weights in [Z].  The sums and products numpy computes on such an
      array are taken modulo 2^64 ([np.wrap64]).  Arrays of floats are not
      modelled.
    - numpy arrays are mutable objects: [copy.copy] and [cm[i,i] = 0] act on
      a store of arrays ([heap]), and an agent holds a reference to its
      matrix.  Python functions are computations in the monad [py], which
      threads the store and may raise an exception.
    - The index groups of an agent ([sensor_ixs], ...) are Python lists of
      non-negative ints; an index past the end of an axis raises
      [IndexError], as in numpy.
    - The graphs of networkx are modelled by their weighted adjacency
      matrix; the graph algorithms follow the library's documentation.
      Python floats are modelled by exact rationals, NaN and the
      infinities: the rounding of a double is not modelled. *)

From stdpp Require Import base list numbers sorting gmap strings.
From Stdlib Require Import QArith.

Local Open Scope Z_scope.

(** ** Exceptions and the monad of Python computations *)

Inductive exn : Type :=
  | IndexError          (* an index out of bounds, or an index array that is not integer *)
  | ValueError          (* shapes that do not broadcast, max() of an empty sequence, overlapping columns *)
  | ZeroDivisionError   (* Python division by zero *)
  | NameError           (* a name that is not defined *)
  | NetworkXError       (* raised by networkx *)
  | Unallocated.        (* a reference outside the store: no Python program reaches it *)

(** An array: the list of its rows. *)
Abbreviation ndarray := (list (list Z)).

(** A reference to an array of the store. *)
Abbreviation loc := nat.

(** The store: the arrays allocated so far, by reference. *)
Abbreviation heap := (list ndarray).

(** The result of a pure operation that may raise. *)
Definition res (A : Type) : Type := exn + A.

(** A Python computation: from a store to the store it leaves and either
    the exception raised or the value returned. *)
Definition py (A : Type) : Type := heap → heap * res A.

#[global] Instance res_ret : MRet res := λ A x, inr x.
#[global] Instance res_bind : MBind res := λ A B f m,
  match m with
  | inl e => inl e
  | inr a => f a
  end.

#[global] Instance py_ret : MRet py := λ A x h, (h, inr x).
#[global] Instance py_bind : MBind py := λ A B f m h,
  match m h with
  | (h', inl e) => (h', inl e)
  | (h', inr a) => f a h'
  end.

Definition raise {A : Type} (e : exn) : py A := λ h, (h, inl e).

(** A pure operation inside a computation. *)
Definition lift {A : Type} (r : res A) : py A := λ h, (h, r).

(** [mapM_res f l]: [f] on every element, left to right, stopping at the
    first exception. *)
Fixpoint mapM_res {A B : Type} (f : A → res B) (l : list A) : res (list B) :=
  match l with
  | [] => inr []
  | x :: l' =>
      match f x with
      | inl e => inl e
      | inr y =>
          match mapM_res f l' with
          | inl e => inl e
          | inr ys => inr (y :: ys)
          end
      end
  end.

(** [for i in range_: body(i)]. *)
Fixpoint for_each (range_ : list nat) (body : nat → py unit) : py unit :=
  match range_ with
  | [] => mret tt
  | i :: rest => body i ;; for_each rest body
  end.

(** ** The store of arrays *)

Module Store.

(** The array a reference points to. *)
Definition get (l : loc) : py ndarray := λ h,
  match h !! l with
  | Some M => (h, inr M)
  | None => (h, inl Unallocated)
  end.

(** A new array of the store. *)
Definition alloc (M : ndarray) : py loc := λ h, (h ++ [M], inr (length h)).

(** [copy.copy(a)] of a numpy array: a new array with the same entries. *)
Definition copy_copy (l : loc) : py loc :=
  M ← get l; alloc M.

(** [len(a)]: the number of rows. *)
Definition len (l : loc) : py nat :=
  M ← get l; mret (length M).

(** [a[i,j] = v], in place; an index out of bounds raises. *)
Definition setitem (l : loc) (i j : nat) (v : Z) : py unit := λ h,
  match h !! l with
  | None => (h, inl Unallocated)
  | Some M =>
      match M !! i with
      | None => (h, inl IndexError)
      | Some row =>
          if decide (j < length row)%nat
          then (<[l := <[i := <[j := v]> row]> M]> h, inr tt)
          else (h, inl IndexError)
      end
  end.

End Store.

(** ** numpy on array values *)

Module np.

Definition nrows (M : ndarray) : nat := length M.

Definition ncols (M : ndarray) : nat :=
  match M with
  | [] => 0%nat
  | row :: _ => length row
  end.

(** [M[i,j]] for indices in bounds. *)
Definition entry (M : ndarray) (i j : nat) : Z :=
  match M !! i with
  | Some row => default 0 (row !! j)
  | None => 0
  end.

(** The array numpy makes of a Python list [ixs] ([np.array(ixs)],
    [np.sort(ixs)]) as an index: the array of a list of ints is an integer
    array; the array of the empty list is a float64 array, which numpy
    refuses as an index. *)
Definition index_array (ixs : list nat) : res (list nat) :=
  match ixs with
  | [] => inl IndexError
  | _ => inr ixs
  end.

(** [M[ixs,:]]: the rows at [ixs]. *)
Definition take_rows (M : ndarray) (ixs : list nat) : res ndarray :=
  mapM_res (λ i, match M !! i with Some row => inr row | None => inl IndexError end) ixs.

(** [M[:,ixs]]: the columns at [ixs], as an array of the same number of rows. *)
Definition take_cols (M : ndarray) (ixs : list nat) : res ndarray :=
  if forallb (λ j, bool_decide (j < ncols M)%nat) ixs
  then inr (map (λ row, map (λ j, default 0 (row !! j)) ixs) M)
  else inl IndexError.

(** [M[np.ix_(a,b)]]: the rows at [a] restricted to the columns at [b].
    numpy checks the bounds of the indices only when the result has an
    entry: with an empty [a] or [b] the result is the empty array of
    [len(a)] rows. *)
Definition take_ix (M : ndarray) (a b : list nat) : res ndarray :=
  if bool_decide (a = [] ∨ b = [])
     || (forallb (λ i, bool_decide (i < nrows M)%nat) a
         && forallb (λ j, bool_decide (j < ncols M)%nat) b)
  then inr (map (λ i, map (λ j, entry M i j) b) a)
  else inl IndexError.

(** The value of an int64 result: the integer modulo 2^64, between -2^63
    and 2^63 - 1. *)
Definition wrap64 (z : Z) : Z := (z + 2 ^ 63) mod 2 ^ 64 - 2 ^ 63.

(** [np.sum(v)] of an int64 vector. *)
Definition sumZ (v : list Z) : Z := wrap64 (foldr Z.add 0 v).

(** [np.sum(M,1)]: the sum of every row. *)
Definition sum_axis1 (M : ndarray) : list Z := map sumZ M.

(** [np.sum(M,0)]: the sum of every column. *)
Definition sum_axis0 (M : ndarray) : list Z :=
  map (λ j, sumZ (map (λ row, default 0 (row !! j)) M)) (seq 0 (ncols M)).

(** [u * v] on int64 vectors, with numpy's broadcasting of a vector of
    length 1. *)
Definition mul (u v : list Z) : res (list Z) :=
  if decide (length u = length v) then inr (zip_with (λ x y, wrap64 (x * y)) u v)
  else match u, v with
       | [x], _ => inr (map (λ y, wrap64 (x * y)) v)
       | _, [y] => inr (map (λ x, wrap64 (x * y)) u)
       | _, _ => inl ValueError
       end.

(** [v > 0]. *)
Definition gt0 (v : list Z) : list bool := map (λ x, bool_decide (0 < x)) v.

(** [np.sum(b)] of a boolean vector: the number of [True]. *)
Definition count_true (b : list bool) : nat := length (filter (λ x, x = true) b).

(** [np.sum(M > 0)] of a boolean array. *)
Definition count_positive (M : ndarray) : nat :=
  count_true (concat (map gt0 M)).

(** [np.where(b)[0]], that is [b.nonzero()[0]]: the positions of [True],
    ascending. *)
Definition nonzero (b : list bool) : list nat :=
  filter (λ i, b !! i = Some true) (seq 0 (length b)).

(** [a[idx]] for positions [idx] of a vector [a]. *)
Definition take (a : list nat) (idx : list nat) : list nat :=
  omap (λ i, a !! i) idx.

(** [np.sort(a)] of a Python list of ints: the values ascending, every
    occurrence kept.  The result is an array made from the list, so its
    dtype is that of [np.array(a)]: int64, or float64 when the list is
    empty; where it is used as an index, [index_array] decides. *)
Definition sort (a : list nat) : list nat := merge_sort (≤)%nat a.

End np.

(** ** Floating-point results and pandas data frames *)

(** The value of a float cell: a finite number (as the exact rational),
    an infinity or NaN. *)
Inductive npfloat : Type :=
  | Fin (q : Q)
  | PInf
  | NInf
  | NaN.

(** A cell of a data frame. *)
Inductive cell : Type :=
  | Int (n : Z)
  | Float (x : npfloat).

(** [x / d] for a float [x] and a numpy integer [d]: numpy's true division
    warns and gives an infinity or NaN on a zero divisor, it does not raise. *)
Definition np_truediv (x : Q) (d : Z) : npfloat :=
  if decide (d = 0) then
    match Qcompare x 0 with
    | Eq => NaN
    | Gt => PInf
    | Lt => NInf
    end
  else Fin (Qred (x / inject_Z d)).

(** [x / d] for Python numbers: division by zero raises. *)
Definition py_truediv (x : Q) (d : Z) : res npfloat :=
  if decide (d = 0) then inl ZeroDivisionError
  else inr (Fin (Qred (x / inject_Z d))).

Module pd.

(** A data frame: the row labels, the column names in order, and the rows. *)
Record DataFrame : Type := {
  index : list Z;
  columns : list string;
  rows : list (list cell)
}.

(** [pd.DataFrame(d, index = idx)] for a dict [d] of scalars: the keys in
    insertion order are the columns, every label of [idx] gets the values. *)
Definition of_dict (d : list (string * cell)) (idx : list Z) : DataFrame :=
  {| index := idx; columns := d.*1; rows := map (λ _, d.*2) idx |}.

(** [pd.DataFrame(dtype=float, columns = cols, index = idx)]: no data, every
    cell is NaN. *)
Definition of_columns (cols : list string) (idx : list Z) : DataFrame :=
  {| index := idx; columns := cols;
     rows := map (λ _, map (λ _, Float NaN) cols) idx |}.

(** The row of label [lab]. *)
Definition row_of (df : DataFrame) (lab : Z) : option (list cell) :=
  match list_find (λ p, p.1 = lab) (zip (index df) (rows df)) with
  | Some (_, (_, row)) => Some row
  | None => None
  end.

(** [left.join(right)]: the columns of [right] after those of [left], row
    by row on the labels of [left]; a label that [right] lacks gets NaN;
    a column name on both sides raises. *)
Definition join (left right : DataFrame) : res DataFrame :=
  if existsb (λ c, bool_decide (c ∈ columns right)) (columns left)
  then inl ValueError
  else inr {| index := index left;
              columns := columns left ++ columns right;
              rows := zip_with (λ lab row,
                        row ++ default (map (λ _, Float NaN) (columns right))
                                       (row_of right lab))
                        (index left) (rows left) |}.

(** [df[col]]: the cells of a column, by row. *)
Definition column (df : DataFrame) (col : string) : option (list cell) :=
  match list_find (λ c, c = col) (columns df) with
  | Some (k, _) => Some (omap (λ row, row !! k) (rows df))
  | None => None
  end.

End pd.

(** ** Agents *)

(** What the analysis reads of an agent: the reference to its connectivity
    matrix, the index lists of its node groups and its number of nodes. *)
Record Agent : Type := {
  cm : loc;
  sensor_ixs : list nat;
  hidden_ixs : list nat;
  motor_ixs : list nat;
  n_nodes : nat
}.

(** ** Connected nodes *)

(** [for i in range(len(cm)): cm[i,i] = 0]. *)
Definition kill_self_loops (cm : loc) : py unit :=
  n ← Store.len cm;
  for_each (seq 0 n) (λ i, Store.setitem cm i i 0).

(** Sensors with outputs. *)
Definition number_of_connected_sensors (cm : loc) (sensor_ixs : list nat) : py nat :=
  M ← Store.get cm;
  sub ← lift (np.take_rows M sensor_ixs);
  mret (np.count_true (np.gt0 (np.sum_axis1 sub))).

(** Motors with inputs. *)
Definition number_of_connected_motors (cm : loc) (motor_ixs : list nat) : py nat :=
  M ← Store.get cm;
  sub ← lift (np.take_cols M motor_ixs);
  mret (np.count_true (np.gt0 (np.sum_axis0 sub))).

(** [(np.sum(cm,0) * np.sum(cm,1)) > 0] of the array at [cm]. *)
Definition inputs_and_outputs (cm : loc) : py (list bool) :=
  M ← Store.get cm;
  prod ← lift (np.mul (np.sum_axis0 M) (np.sum_axis1 M));
  mret (np.gt0 prod).

(** The source comments it "num hidden nodes with inputs and outputs"; it
    counts the nodes of the whole matrix with an input and an output, on a
    copy cleared of its self-loops unless [allow_self_loops]. *)
Definition number_of_densely_connected_nodes (cm_agent : loc) (allow_self_loops : bool)
  : py nat :=
  cm ← Store.copy_copy cm_agent;
  (if allow_self_loops then mret tt else kill_self_loops cm);;
  b ← inputs_and_outputs cm;
  mret (np.count_true b).

(** The source comments it "Hidden nodes with inputs and outputs"; the
    same flags as above, as the ascending list of their positions. *)
Definition densely_connected_nodes (cm_agent : loc) (allow_self_loops : bool)
  : py (list nat) :=
  cm ← Store.copy_copy cm_agent;
  (if allow_self_loops then mret tt else kill_self_loops cm);;
  b ← inputs_and_outputs cm;
  mret (np.nonzero b).

(** "Sensors with outputs, motors with inputs, and hidden with both", on a
    copy of the matrix cleared of its self-loops: the three Python lists
    are concatenated and the result is sorted.  The value returned is the
    array [np.sort] makes of the list, given by its values. *)
Definition connected_nodes (agent : Agent) : py (list nat) :=
  cm ← Store.copy_copy (cm agent);
  kill_self_loops cm;;
  M ← Store.get cm;
  S ← lift (np.index_array (sensor_ixs agent));
  rows ← lift (np.take_rows M S);
  let cS_ind := np.nonzero (np.gt0 (np.sum_axis1 rows)) in
  let cS := np.take S cS_ind in
  Mo ← lift (np.index_array (motor_ixs agent));
  cols ← lift (np.take_cols M Mo);
  let cM_ind := np.nonzero (np.gt0 (np.sum_axis0 cols)) in
  let cM := np.take Mo cM_ind in
  cH ← densely_connected_nodes cm false;
  mret (np.sort (cS ++ cM ++ cH)).

(** The counts by group, on the matrix of the agent as it is, and their
    sum [cN], as a data frame of one row. *)
Definition number_of_connected_nodes_by_type (agent : Agent) : py pd.DataFrame :=
  let cm := cm agent in
  cS ← number_of_connected_sensors cm (sensor_ixs agent);
  cH ← number_of_densely_connected_nodes cm false;
  cM ← number_of_connected_motors cm (motor_ixs agent);
  let num_connected_nodes :=
    [("cN", Int (Z.of_nat cS + Z.of_nat cH + Z.of_nat cM));
     ("cS", Int (Z.of_nat cS));
     ("cH", Int (Z.of_nat cH));
     ("cM", Int (Z.of_nat cM))]%string in
  mret (pd.of_dict num_connected_nodes [1]).

(** ** Connections between node groups *)

(** [np.sum(cm[np.ix_(a_ixs,b_ixs)]>0)]. *)
Definition number_of_connections (cm : loc) (a_ixs b_ixs : list nat) : py nat :=
  M ← Store.get cm;
  sub ← lift (np.take_ix M a_ixs b_ixs);
  mret (np.count_positive sub).

(** [list(ind.intersection(ixs))]; the order in which a Python set is
    enumerated is not modelled, the counts below do not depend on it. *)
Definition intersection (ind : gset nat) (ixs : list nat) : list nat :=
  elements (ind ∩ list_to_set ixs).

(** The connections sensor to motor, sensor to hidden, hidden to hidden
    and hidden to motor, among the connected nodes or among all of them. *)
Definition number_of_connections_by_type (agent : Agent) (connected_only : bool)
  : py pd.DataFrame :=
  let cm := cm agent in
  ind ← (if connected_only
         then c ← connected_nodes agent; mret (list_to_set c : gset nat)
         else mret (list_to_set (seq 0 (n_nodes agent)) : gset nat));
  let S := intersection ind (sensor_ixs agent) in
  let Mo := intersection ind (motor_ixs agent) in
  let H := intersection ind (hidden_ixs agent) in
  s_m ← number_of_connections cm S Mo;
  s_h ← number_of_connections cm S H;
  h_h ← number_of_connections cm H H;
  h_m ← number_of_connections cm H Mo;
  let num_connections :=
    [("s_m", Int (Z.of_nat s_m));
     ("s_h", Int (Z.of_nat s_h));
     ("h_h", Int (Z.of_nat h_h));
     ("h_m", Int (Z.of_nat h_m))]%string in
  mret (pd.of_dict num_connections [1]).

(** ** Directed graphs and the graph algorithms of networkx *)

Module nx.

(** A directed graph on the nodes [0 .. n-1], by its weighted adjacency
    matrix: there is an edge from [u] to [v] when the entry is not zero. *)
Abbreviation DiGraph := ndarray.

(** [nx.from_numpy_matrix(A, create_using=nx.DiGraph())]: the matrix has
    to be square. *)
Definition from_numpy_matrix (A : ndarray) : res DiGraph :=
  if forallb (λ row, bool_decide (length row = length A)) A
  then inr A
  else inl NetworkXError.

(** [np.array(nx.adjacency_matrix(G).todense())]; networkx refuses the
    graph without nodes. *)
Definition adjacency_matrix (G : DiGraph) : res ndarray :=
  match G with
  | [] => inl NetworkXError
  | _ => inr G
  end.

Definition nodes (G : DiGraph) : list nat := seq 0 (length G).

Definition has_edge (G : DiGraph) (u v : nat) : bool :=
  bool_decide (np.entry G u v ≠ 0).

(** [G.size()]: the number of edges. *)
Definition size (G : DiGraph) : nat :=
  length (filter (λ p, has_edge G p.1 p.2 = true)
                 (u ← nodes G; v ← nodes G; [(u, v)])).

(** [G.subgraph(c).size()]: the edges with both ends in [c]. *)
Definition size_within (G : DiGraph) (c : list nat) : nat :=
  length (filter (λ p, has_edge G p.1 p.2 = true)
                 (u ← c; v ← c; [(u, v)])).

(** The nodes reached from [seen] along at most [fuel] edges of [e]. *)
Fixpoint reach (e : nat → nat → bool) (ns : list nat) (fuel : nat)
    (seen : list nat) : list nat :=
  match fuel with
  | O => seen
  | S fuel' =>
      reach e ns fuel'
        (list_union seen (u ← seen; filter (λ v, e u v = true) ns))
  end.

Definition reachable (e : nat → nat → bool) (ns : list nat) (u v : nat) : bool :=
  bool_decide (v ∈ reach e ns (length ns) [u]).

(** The classes of [ns] for the relation [same], each by its first node. *)
Definition components (same : nat → nat → bool) (ns : list nat) : list (list nat) :=
  foldl (λ acc v,
           if existsb (λ c, bool_decide (v ∈ c)) acc then acc
           else acc ++ [filter (λ u, same v u = true) ns])
        [] ns.

(** The strongly connected components: nodes that reach each other. *)
Definition strongly_connected_components (G : DiGraph) : list (list nat) :=
  let e := has_edge G in
  components (λ u v, reachable e (nodes G) u v && reachable e (nodes G) v u) (nodes G).

(** The weakly connected components: nodes joined when edges are taken in
    both directions. *)
Definition weakly_connected_components (G : DiGraph) : list (list nat) :=
  let e := λ u v, has_edge G u v || has_edge G v u in
  components (reachable e (nodes G)) (nodes G).

Definition sumQ (l : list Q) : Q := foldr Qplus 0%Q l.

(** [nx.flow_hierarchy(G)]:
    [1.0 - sum(G.subgraph(c).size() for c in scc) / float(G.size())], as
    the exact rational. *)
Definition flow_hierarchy (G : DiGraph) : res npfloat :=
  let scc := strongly_connected_components G in
  let inside := sum_list_with (size_within G) scc in
  q ← py_truediv (inject_Z (Z.of_nat inside)) (Z.of_nat (size G));
  match q with
  | Fin q => inr (Fin (Qred (1 - q)))
  | x => inr x
  end.

(** The number of walks of [k] edges from [s] to [t]. *)
Fixpoint walks (G : DiGraph) (k : nat) (s t : nat) : nat :=
  match k with
  | O => if decide (s = t) then 1 else 0
  | S k' =>
      sum_list_with (λ u, if has_edge G u t then walks G k' s u else 0%nat) (nodes G)
  end.

(** The distance from [s] to [t] and the number of shortest paths, if [t]
    is reached from [s]: a walk of the least number of edges is a
    shortest path. *)
Definition shortest (G : DiGraph) (s t : nat) : option (nat * nat) :=
  match list_find (λ k, (0 < walks G k s t)%nat) (seq 0 (length G)) with
  | Some (_, k) => Some (k, walks G k s t)
  | None => None
  end.

(** The fraction of the shortest paths from [s] to [t] that pass through [v]. *)
Definition pair_dependency (G : DiGraph) (s t v : nat) : Q :=
  match shortest G s t, shortest G s v, shortest G v t with
  | Some (d, n), Some (d1, n1), Some (d2, n2) =>
      if decide (d1 + d2 = d)%nat
      then (inject_Z (Z.of_nat (n1 * n2)) / inject_Z (Z.of_nat n))%Q
      else 0%Q
  | _, _, _ => 0%Q
  end.

(** [nx.betweenness_centrality(G)], by node: the sum over the pairs
    [s], [t] of other nodes of the fraction of shortest paths through the
    node, scaled by [1/((n-1)(n-2))] when [n > 2]. *)
Definition betweenness_centrality (G : DiGraph) : list Q :=
  let n := length G in
  let scale := if decide (n ≤ 2)%nat then 1%Q
               else (1 / inject_Z (Z.of_nat ((n - 1) * (n - 2))))%Q in
  map (λ v,
         (sumQ (s ← filter (λ s, s ≠ v) (nodes G);
               t ← filter (λ t, t ≠ v ∧ t ≠ s) (nodes G);
               [pair_dependency G s t v]) * scale)%Q)
      (nodes G).

(** [G.degree()]: incoming plus outgoing edges of a node. *)
Definition degree (G : DiGraph) (v : nat) : nat :=
  length (filter (λ u, has_edge G u v = true) (nodes G))
  + length (filter (λ u, has_edge G v u = true) (nodes G)).

(** [nx.degree_centrality(G)], by node: the degree over [n - 1]; 1 for
    every node when [n <= 1]. *)
Definition degree_centrality (G : DiGraph) : list Q :=
  let n := length G in
  if decide (n ≤ 1)%nat then map (λ _, 1%Q) (nodes G)
  else map (λ v, (inject_Z (Z.of_nat (degree G v)) / inject_Z (Z.of_nat (n - 1)))%Q)
           (nodes G).

End nx.

(** [max(components, key=len)]: the first component of the largest size;
    raises on an empty sequence. *)
Definition max_by_len (cs : list (list nat)) : res (list nat) :=
  match cs with
  | [] => inl ValueError
  | c :: cs' =>
      inr (foldl (λ best c', if decide (length best < length c')%nat then c' else best)
                 c cs')
  end.

(** ** Components and centralities *)

(** Largest strongly connected component, [None] when it has fewer than two
    nodes.  Among components of the same size [max] keeps the first that
    networkx yields; that order is not modelled (here the component of the
    lowest node comes first), so the model says which component is returned
    only when one component is larger than every other. *)
Definition LSCC (G : nx.DiGraph) : res (option (gset nat)) :=
  LSCC ← max_by_len (nx.strongly_connected_components G);
  if decide (length LSCC < 2)%nat then mret None
  else mret (Some (list_to_set LSCC)).

(** The size of the largest strongly connected component. *)
Definition len_LSCC (G : nx.DiGraph) : res nat :=
  LSCC ← max_by_len (nx.strongly_connected_components G);
  mret (length LSCC).

(** The size of the largest weakly connected component. *)
Definition len_LWCC (G : nx.DiGraph) : res nat :=
  LWCC ← max_by_len (nx.weakly_connected_components G);
  mret (length LWCC).

(** The sum of the betweenness centralities over the number of densely
    connected nodes of the graph ([num_hidden] is a numpy integer).
    With [connected_only] false the source reads [len(agent.hidden_ixs)],
    but [agent] is neither a parameter of the function nor a name of the
    module: Python raises [NameError]. *)
Definition average_betweenness_centrality (G : nx.DiGraph) (connected_only : bool)
  : py npfloat :=
  let HBC := nx.betweenness_centrality G in
  num_hidden ← (if connected_only
                then A ← lift (nx.adjacency_matrix G);
                     cm ← Store.alloc A;
                     number_of_densely_connected_nodes cm false
                else raise NameError);
  let avHBC := np_truediv (nx.sumQ HBC) (Z.of_nat num_hidden) in
  mret avHBC.

(** The mean of the degree centralities, a division of Python numbers;
    [connected_only] is not used. *)
Definition average_degree_centrality (G : nx.DiGraph) (connected_only : bool)
  : res npfloat :=
  let DC_list := nx.degree_centrality G in
  py_truediv (nx.sumQ DC_list) (Z.of_nat (length DC_list)).

(** Modelled from the spec: [get_graph] of the module [utils], which is not
    part of the analysed file; the spec describes it as the directed graph
    over all the declared nodes with the weights of the matrix as edge
    weights. *)
Definition get_graph (agent : Agent) : py nx.DiGraph :=
  M ← Store.get (cm agent);
  lift (nx.from_numpy_matrix M).

(** ** The structural report *)

(** The report of one agent: the two data frames above joined with the
    component sizes and centralities of the graph of the connected nodes
    (or of [get_graph]).  [np.ix_] leaves the array [ind_con] as it is, and
    [agent.cm[...]] refuses it when it is the float64 array of no node. *)
Definition fullStructuralAnalysis (agent : Agent) (connected_only : bool)
  : py pd.DataFrame :=
  df ← number_of_connected_nodes_by_type agent;
  df2 ← number_of_connections_by_type agent connected_only;
  df ← lift (pd.join df df2);
  G ← (if connected_only
       then ind_con ← connected_nodes agent;
            M ← Store.get (cm agent);
            ix ← lift (np.index_array ind_con);
            cm_connected ← lift (np.take_ix M ix ix);
            lift (nx.from_numpy_matrix cm_connected)
       else get_graph agent);
  lscc ← lift (len_LSCC G);
  lwcc ← lift (len_LWCC G);
  fh ← lift (nx.flow_hierarchy G);
  bc ← average_betweenness_centrality G connected_only;
  dc ← lift (average_degree_centrality G true);
  let components :=
    [("len_LSCC", Int (Z.of_nat lscc));
     ("len_LWCC", Int (Z.of_nat lwcc));
     ("flow_hierarchy", Float fh);
     ("av_betweenness_centrality", Float bc);
     ("av_degree_centrality", Float dc)]%string in
  lift (pd.join df (pd.of_dict components [1])).

(** A data frame of [index_num] rows with the columns of the report and no
    data. *)
Definition emptyStructuralAnalysis (index_num : nat) : pd.DataFrame :=
  pd.of_columns
    ["cN"; "cS"; "cH"; "cM"; "s_m"; "s_h"; "h_h"; "h_m"; "len_LSCC"; "len_LWCC";
     "flow_hierarchy"; "av_betweenness_centrality"; "av_degree_centrality"]%string
    (map Z.of_nat (seq 0 index_num)).

(** ** The scenario of the specification *)

Definition scenario_cm : ndarray :=
  [[0; 1; 0; 0];
   [0; 0; 1; 0];
   [0; 1; 0; 1];
   [0; 0; 0; 0]].

Definition scenario_agent : Agent :=
  {| cm := 0; sensor_ixs := [0]; hidden_ixs := [1; 2]; motor_ixs := [3]; n_nodes := 4 |}%nat.

(** * Definitions for the proofs

    Array values, what the functions return as functions of the matrix
    value, the order between matrices and the frame property of a
    computation. *)

(** Self-loop removal on an array value. *)
Definition strip (M : ndarray) : ndarray := imap (λ i row, <[i := 0]> row) M.

(** The loop [for i in range(k, k+m): cm[i,i] = 0] on an array value: the
    array it leaves and how it ends. *)
Fixpoint strip_from (k m : nat) (M : ndarray) : ndarray * res unit :=
  match m with
  | O => (M, inr tt)
  | S m' =>
      match M !! k with
      | None => (M, inl IndexError)
      | Some row =>
          if decide (k < length row)%nat
          then strip_from (S k) m' (<[k := <[k := 0]> row]> M)
          else (M, inl IndexError)
      end
  end.

(** An [n] by [n] array. *)
Definition square (n : nat) (M : ndarray) : Prop :=
  length M = n ∧ Forall (λ row, length row = n) M.

(** No negative weight. *)
Definition nonneg (M : ndarray) : Prop :=
  Forall (Forall (λ x, 0 ≤ x)) M.

(** The sum of a vector as an integer, before it is wrapped. *)
Definition total (v : list Z) : Z := foldr Z.add 0 v.

(** Weights that cannot make a sum, or a product of two sums, of an [n] by
    [n] array overflow: every weight [w] has [0 <= w] and [n * w < 2^31]. *)
Definition small (n : nat) (M : ndarray) : Prop :=
  Forall (Forall (λ x, 0 ≤ x ∧ x * Z.of_nat n < 2 ^ 31)) M.

(** [(np.sum(M,0) * np.sum(M,1)) > 0] on an array value. *)
Definition flags_val (M : ndarray) : res (list bool) :=
  match np.mul (np.sum_axis0 M) (np.sum_axis1 M) with
  | inl e => inl e
  | inr prod => inr (np.gt0 prod)
  end.

(** The copy that the two functions on densely connected nodes work on,
    as they leave it, and the flags they compute. *)
Definition dense_val (M : ndarray) (allow_self_loops : bool) : ndarray * res (list bool) :=
  if allow_self_loops then (M, flags_val M)
  else let st := strip_from 0 (length M) M in
       (st.1, match st.2 with inl e => inl e | inr _ => flags_val st.1 end).

(** The arrays [connected_nodes] allocates, as it leaves them, and what it
    returns. *)
Definition connected_val (M : ndarray) (sensors motors : list nat)
  : list ndarray * res (list nat) :=
  let st := strip_from 0 (length M) M in
  let M1 := st.1 in
  match st.2 with
  | inl e => ([M1], inl e)
  | inr _ =>
  match np.index_array sensors with
  | inl e => ([M1], inl e)
  | inr Sx =>
  match np.take_rows M1 Sx with
  | inl e => ([M1], inl e)
  | inr rows =>
  match np.index_array motors with
  | inl e => ([M1], inl e)
  | inr Mo =>
  match np.take_cols M1 Mo with
  | inl e => ([M1], inl e)
  | inr cols =>
      let cS := np.take Sx (np.nonzero (np.gt0 (np.sum_axis1 rows))) in
      let cM := np.take Mo (np.nonzero (np.gt0 (np.sum_axis0 cols))) in
      let d := dense_val M1 false in
      ([M1; d.1],
       match d.2 with
       | inl e => inl e
       | inr b => inr (np.sort (cS ++ cM ++ np.nonzero b))
       end)
  end end end end end.

(** What [number_of_connected_sensors], [number_of_connected_motors] and
    [number_of_connections] return on an array value. *)
Definition sensors_val (M : ndarray) (ixs : list nat) : res nat :=
  match np.take_rows M ixs with
  | inl e => inl e
  | inr sub => inr (np.count_true (np.gt0 (np.sum_axis1 sub)))
  end.

Definition motors_val (M : ndarray) (ixs : list nat) : res nat :=
  match np.take_cols M ixs with
  | inl e => inl e
  | inr sub => inr (np.count_true (np.gt0 (np.sum_axis0 sub)))
  end.

Definition connections_val (M : ndarray) (a b : list nat) : res nat :=
  match np.take_ix M a b with
  | inl e => inl e
  | inr sub => inr (np.count_positive sub)
  end.

(** The four counts of [number_of_connections_by_type] for the node set [ind]. *)
Definition connections_by_type_val (M : ndarray) (agent : Agent) (ind : gset nat)
  : res pd.DataFrame :=
  let S := intersection ind (sensor_ixs agent) in
  let Mo := intersection ind (motor_ixs agent) in
  let H := intersection ind (hidden_ixs agent) in
  s_m ← connections_val M S Mo;
  s_h ← connections_val M S H;
  h_h ← connections_val M H H;
  h_m ← connections_val M H Mo;
  mret (pd.of_dict [("s_m", Int (Z.of_nat s_m)); ("s_h", Int (Z.of_nat s_h));
                    ("h_h", Int (Z.of_nat h_h)); ("h_m", Int (Z.of_nat h_m))]%string [1]).

(** The sum of the weights out of node [v], and into it. *)
Definition rowsum (M : ndarray) (v : nat) : Z := np.sumZ (default [] (M !! v)).

Definition colsum (M : ndarray) (v : nat) : Z :=
  np.sumZ (map (λ row, default 0 (row !! v)) M).

(** [M'] has the shape of [M] and entries at least as large. *)
Definition mle (M M' : ndarray) : Prop := Forall2 (Forall2 Z.le) M M'.

(** 1 when there is a connection from [i] to [j], else 0. *)
Definition positive (M : ndarray) (i j : nat) : nat :=
  if bool_decide (0 < np.entry M i j) then 1%nat else 0%nat.



(** [preserves n m Q]: run from a store of at least [n] arrays, [m] leaves
    the first [n] arrays as they are, and a value it returns satisfies [Q]. *)
Definition preserves {A : Type} (n : nat) (m : py A) (Q : A → Prop) : Prop :=
  ∀ h, (n ≤ length h)%nat →
    (n ≤ length (m h).1)%nat ∧ take n (m h).1 = take n h
    ∧ ∀ a, (m h).2 = inr a → Q a.

Definition any {A : Type} : A → Prop := λ _, True.

(** ** Example agents *)

(** An agent of three nodes: sensor 0, hidden node 1, motor 2; its matrix
    is the first array of the store. *)
Definition three_agent : Agent :=
  {| cm := 0; sensor_ixs := [0]; hidden_ixs := [1]; motor_ixs := [2]; n_nodes := 3 |}%nat.

(** No edge at all. *)
Definition zero_cm : ndarray := [[0; 0; 0]; [0; 0; 0]; [0; 0; 0]].

(** A self-loop on the sensor and no other edge. *)
Definition self_loop_cm : ndarray := [[1; 0; 0]; [0; 0; 0]; [0; 0; 0]].

(** The edges 0→1, 1→0, 1→2: the sensor has an output and an input. *)
Definition feedback_cm : ndarray := [[0; 1; 0]; [1; 0; 1]; [0; 0; 0]].





(** * Lemmas *)

Ltac py_unfold :=
  repeat progress
    (unfold mbind, mret, py_bind, py_ret, res_bind, res_ret, lift, raise,
       Store.get, Store.alloc, Store.copy_copy, Store.len in *;
     cbv beta in *).

(** ** The loop that clears the diagonal *)

Lemma for_each_setitem_run (l : loc) (m k : nat) (h : heap) (M : ndarray) :
  h !! l = Some M →
  for_each (seq k m) (λ i, Store.setitem l i i 0) h
  = (<[l := (strip_from k m M).1]> h, (strip_from k m M).2).
Proof.
  revert k h M. induction m as [|m IH]; intros k h M Hl; simpl.
  - py_unfold. by rewrite list_insert_id.
  - py_unfold. unfold Store.setitem at 1. rewrite Hl.
    destruct (M !! k) as [row|] eqn:Hk; simpl.
    + destruct (decide (k < length row)%nat); simpl.
      * rewrite (IH (S k) _ (<[k:=<[k:=0]> row]> M)).
        -- by rewrite list_insert_insert_eq.
        -- apply list_lookup_insert_eq. by eapply lookup_lt_Some.
      * by rewrite list_insert_id.
    + by rewrite list_insert_id.
Qed.

Lemma kill_self_loops_run (l : loc) (h : heap) (M : ndarray) :
  h !! l = Some M →
  kill_self_loops l h
  = (<[l := (strip_from 0 (length M) M).1]> h, (strip_from 0 (length M) M).2).
Proof.
  intros Hl. unfold kill_self_loops. py_unfold. rewrite Hl.
  by apply for_each_setitem_run.
Qed.

(** The loop, when it ends normally, has cleared the diagonal of the rows
    [k .. k+m-1]. *)
Lemma strip_from_lookup k m M i :
  (strip_from k m M).2 = inr tt →
  (strip_from k m M).1 !! i
  = (λ row, if decide (k ≤ i < k + m)%nat then <[i := 0]> row else row) <$> M !! i.
Proof.
  revert k M. induction m as [|m IH]; intros k M; simpl.
  - intros _. destruct (M !! i); simpl; [|done]. by rewrite decide_False by lia.
  - destruct (M !! k) as [row|] eqn:Hk; [|done].
    destruct (decide (k < length row)%nat); [|done].
    intros Hok. rewrite (IH _ _ Hok).
    destruct (decide (i = k)) as [->|Hne].
    + rewrite list_lookup_insert_eq by (by eapply lookup_lt_Some).
      rewrite Hk. simpl. rewrite decide_False by lia. by rewrite decide_True by lia.
    + rewrite list_lookup_insert_ne by done.
      destruct (M !! i); simpl; [|done].
      f_equal. repeat case_decide; try done; lia.
Qed.

Lemma strip_lookup M i : strip M !! i = (λ row, <[i := 0]> row) <$> M !! i.
Proof. unfold strip. by rewrite list_lookup_imap. Qed.

Lemma strip_from_ok M :
  (strip_from 0 (length M) M).2 = inr tt → (strip_from 0 (length M) M).1 = strip M.
Proof.
  intros Hok. apply list_eq. intros i.
  rewrite strip_from_lookup, strip_lookup by done.
  destruct (M !! i) eqn:Hi; simpl; [|done].
  apply lookup_lt_Some in Hi. by rewrite decide_True by lia.
Qed.

Lemma strip_from_square_ok n k m M :
  square n M → (k + m ≤ n)%nat → (strip_from k m M).2 = inr tt.
Proof.
  revert k M. induction m as [|m IH]; intros k M [Hlen Hrows] Hk; simpl; [done|].
  destruct (M !! k) as [row|] eqn:Hrow.
  - assert (length row = n) as Hr.
    { eapply (Forall_lookup_1 _ _ _ _ Hrows Hrow). }
    rewrite decide_True by lia. apply IH; [|lia]. split.
    + by rewrite length_insert.
    + apply Forall_insert; [done|]. by rewrite length_insert.
  - apply lookup_ge_None in Hrow. lia.
Qed.

Lemma strip_loop_square n M :
  square n M → strip_from 0 (length M) M = (strip M, inr tt).
Proof.
  intros Hsq. pose proof (strip_from_square_ok n 0 (length M) M Hsq) as Hok.
  destruct Hsq as [Hlen _]. specialize (Hok ltac:(lia)).
  pose proof (strip_from_ok M Hok). destruct (strip_from 0 (length M) M); simpl in *.
  by subst.
Qed.

(** ** What the classifying functions return *)

Lemma inputs_and_outputs_run (l : loc) (h : heap) (M : ndarray) :
  h !! l = Some M → inputs_and_outputs l h = (h, flags_val M).
Proof.
  intros Hl. unfold inputs_and_outputs, flags_val. py_unfold. rewrite Hl.
  by destruct (np.mul _ _).
Qed.

Lemma insert_app_end (h : heap) (M M' : ndarray) :
  <[length h := M']> (h ++ [M]) = h ++ [M'].
Proof.
  rewrite insert_app_r_alt by lia. by rewrite Nat.sub_diag.
Qed.

Lemma lookup_app_end (h : heap) (M : ndarray) : (h ++ [M]) !! length h = Some M.
Proof. rewrite lookup_app_r by lia. by rewrite Nat.sub_diag. Qed.

Lemma number_of_densely_connected_nodes_run (l : loc) (allow : bool) (h : heap) (M : ndarray) :
  h !! l = Some M →
  number_of_densely_connected_nodes l allow h
  = (h ++ [(dense_val M allow).1],
     match (dense_val M allow).2 with inl e => inl e | inr b => inr (np.count_true b) end).
Proof.
  intros Hl. unfold number_of_densely_connected_nodes, dense_val. py_unfold.
  rewrite Hl. destruct allow.
  - rewrite (inputs_and_outputs_run _ _ M) by apply lookup_app_end.
    simpl. by destruct (flags_val M).
  - rewrite (kill_self_loops_run _ _ M) by apply lookup_app_end.
    rewrite insert_app_end. simpl.
    destruct (strip_from 0 (length M) M) as [M1 [e|[]]]; simpl; [done|].
    rewrite (inputs_and_outputs_run _ _ M1) by apply lookup_app_end.
    by destruct (flags_val M1).
Qed.

Lemma densely_connected_nodes_run (l : loc) (allow : bool) (h : heap) (M : ndarray) :
  h !! l = Some M →
  densely_connected_nodes l allow h
  = (h ++ [(dense_val M allow).1],
     match (dense_val M allow).2 with inl e => inl e | inr b => inr (np.nonzero b) end).
Proof.
  intros Hl. unfold densely_connected_nodes, dense_val. py_unfold.
  rewrite Hl. destruct allow.
  - rewrite (inputs_and_outputs_run _ _ M) by apply lookup_app_end.
    simpl. by destruct (flags_val M).
  - rewrite (kill_self_loops_run _ _ M) by apply lookup_app_end.
    rewrite insert_app_end. simpl.
    destruct (strip_from 0 (length M) M) as [M1 [e|[]]]; simpl; [done|].
    rewrite (inputs_and_outputs_run _ _ M1) by apply lookup_app_end.
    by destruct (flags_val M1).
Qed.

Lemma connected_nodes_run (agent : Agent) (h : heap) (M : ndarray) :
  h !! cm agent = Some M →
  connected_nodes agent h
  = (h ++ (connected_val M (sensor_ixs agent) (motor_ixs agent)).1,
     (connected_val M (sensor_ixs agent) (motor_ixs agent)).2).
Proof.
  intros Hl. unfold connected_nodes, connected_val. py_unfold. rewrite Hl.
  rewrite (kill_self_loops_run _ _ M) by apply lookup_app_end.
  rewrite insert_app_end. simpl.
  destruct (strip_from 0 (length M) M) as [M1 [e|[]]]; simpl; [done|].
  rewrite lookup_app_end.
  destruct (np.index_array (sensor_ixs agent)) as [e|Sx]; [done|].
  destruct (np.take_rows M1 Sx) as [e|rows]; [done|].
  destruct (np.index_array (motor_ixs agent)) as [e|Mo]; [done|].
  destruct (np.take_cols M1 Mo) as [e|cols]; [done|].
  rewrite (densely_connected_nodes_run _ _ _ M1) by apply lookup_app_end.
  rewrite <- app_assoc. simpl.
  destruct (strip_from 0 (length M1) M1) as [M2 [e|?]]; simpl; [done|].
  by destruct (flags_val M2).
Qed.

Lemma strip_from_ok_iff k m M :
  (strip_from k m M).2 = inr tt
  ↔ ∀ i, (k ≤ i < k + m)%nat → ∃ row, M !! i = Some row ∧ (i < length row)%nat.
Proof.
  revert k M. induction m as [|m IH]; intros k M; simpl.
  - split; [intros _ i ?; lia|done].
  - destruct (M !! k) as [row|] eqn:Hk.
    + destruct (decide (k < length row)%nat) as [Hlt|Hge]; simpl.
      * rewrite IH. split; intros H i Hi.
        -- destruct (decide (i = k)) as [->|Hne]; [by eauto|].
           destruct (H i ltac:(lia)) as (r & Hr & ?).
           rewrite list_lookup_insert_ne in Hr by done. eauto.
        -- rewrite list_lookup_insert_ne by lia. apply H. lia.
      * split; [done|]. intros H. destruct (H k ltac:(lia)) as (r & Hr & ?).
        simplify_eq. lia.
    + split; [done|]. intros H. destruct (H k ltac:(lia)) as (r & Hr & ?).
      simplify_eq.
Qed.

Lemma strip_strip M : strip (strip M) = strip M.
Proof.
  apply list_eq. intros i. rewrite !strip_lookup.
  destruct (M !! i); simpl; [|done]. by rewrite list_insert_insert_eq.
Qed.

Lemma length_strip M : length (strip M) = length M.
Proof. unfold strip. by rewrite length_imap. Qed.

Lemma strip_from_strip_ok M :
  (strip_from 0 (length M) M).2 = inr tt →
  (strip_from 0 (length (strip M)) (strip M)).2 = inr tt.
Proof.
  rewrite !strip_from_ok_iff, length_strip. intros H i Hi.
  destruct (H i Hi) as (row & Hrow & ?). exists (<[i := 0]> row).
  rewrite strip_lookup, Hrow. split; [done|]. by rewrite length_insert.
Qed.

(** When the loop ends normally on [M], it leaves [strip M], and the flags
    of the densely connected nodes are those of [strip M]. *)
Lemma dense_val_false_inr M b :
  (dense_val M false).2 = inr b →
  (strip_from 0 (length M) M).2 = inr tt ∧ (dense_val M false).1 = strip M
  ∧ flags_val (strip M) = inr b.
Proof.
  unfold dense_val. simpl.
  destruct (strip_from 0 (length M) M) as [M1 [e|[]]] eqn:Hst; simpl; [done|].
  intros Hb. pose proof (strip_from_ok M) as Hok. rewrite Hst in Hok.
  simpl in Hok. rewrite <- Hok by done. done.
Qed.

Lemma dense_val_false_ok M :
  (strip_from 0 (length M) M).2 = inr tt →
  dense_val M false = (strip M, flags_val (strip M)).
Proof.
  intros Hok. unfold dense_val. rewrite (strip_from_ok M Hok), Hok. done.
Qed.

Lemma dense_val_strip M :
  (strip_from 0 (length M) M).2 = inr tt →
  dense_val (strip M) false = (strip M, flags_val (strip M)).
Proof.
  intros Hok. rewrite dense_val_false_ok by by apply strip_from_strip_ok.
  by rewrite strip_strip.
Qed.

(** What [connected_nodes] returns when it returns. *)
Lemma connected_val_inr M sensors motors c :
  (connected_val M sensors motors).2 = inr c →
  ∃ rows cols b,
    (strip_from 0 (length M) M).2 = inr tt
    ∧ sensors ≠ [] ∧ motors ≠ []
    ∧ np.take_rows (strip M) sensors = inr rows
    ∧ np.take_cols (strip M) motors = inr cols
    ∧ flags_val (strip M) = inr b
    ∧ c = np.sort (np.take sensors (np.nonzero (np.gt0 (np.sum_axis1 rows)))
                   ++ np.take motors (np.nonzero (np.gt0 (np.sum_axis0 cols)))
                   ++ np.nonzero b).
Proof.
  unfold connected_val.
  destruct (strip_from 0 (length M) M).2 as [e|[]] eqn:Hst; [done|].
  rewrite (strip_from_ok M Hst).
  destruct sensors as [|s sensors]; [done|]. simpl np.index_array. cbv iota.
  destruct (np.take_rows _ _) as [e|rows] eqn:Hrows; [done|].
  destruct motors as [|m motors]; [done|]. simpl np.index_array. cbv iota.
  destruct (np.take_cols _ _) as [e|cols] eqn:Hcols; [done|].
  rewrite dense_val_strip by done. cbn [fst snd].
  destruct (flags_val (strip M)) as [e|b] eqn:Hb; [done|].
  intros [= <-]. exists rows, cols, b. done.
Qed.

Lemma connected_val_ok M sensors motors rows cols b :
  (strip_from 0 (length M) M).2 = inr tt →
  sensors ≠ [] → motors ≠ [] →
  np.take_rows (strip M) sensors = inr rows →
  np.take_cols (strip M) motors = inr cols →
  flags_val (strip M) = inr b →
  connected_val M sensors motors
  = ([strip M; strip M],
     inr (np.sort (np.take sensors (np.nonzero (np.gt0 (np.sum_axis1 rows)))
                   ++ np.take motors (np.nonzero (np.gt0 (np.sum_axis0 cols)))
                   ++ np.nonzero b))).
Proof.
  intros Hst Hs Hm Hrows Hcols Hb. unfold connected_val.
  rewrite Hst, (strip_from_ok M Hst).
  destruct sensors as [|s sensors]; [done|]. simpl np.index_array. cbv iota.
  rewrite Hrows.
  destruct motors as [|m motors]; [done|]. simpl np.index_array. cbv iota.
  rewrite Hcols. rewrite dense_val_strip by done. cbn [fst snd]. by rewrite Hb.
Qed.

Lemma number_of_connected_sensors_run l ixs (h : heap) M :
  h !! l = Some M → number_of_connected_sensors l ixs h = (h, sensors_val M ixs).
Proof.
  intros Hl. unfold number_of_connected_sensors, sensors_val. py_unfold.
  rewrite Hl. by destruct (np.take_rows M ixs).
Qed.

Lemma number_of_connected_motors_run l ixs (h : heap) M :
  h !! l = Some M → number_of_connected_motors l ixs h = (h, motors_val M ixs).
Proof.
  intros Hl. unfold number_of_connected_motors, motors_val. py_unfold.
  rewrite Hl. by destruct (np.take_cols M ixs).
Qed.

Lemma number_of_connections_run l a b (h : heap) M :
  h !! l = Some M → number_of_connections l a b h = (h, connections_val M a b).
Proof.
  intros Hl. unfold number_of_connections, connections_val. py_unfold.
  rewrite Hl. by destruct (np.take_ix M a b).
Qed.

Lemma number_of_connections_by_type_run agent (connected_only : bool) (h : heap) M :
  h !! cm agent = Some M →
  number_of_connections_by_type agent connected_only h
  = if connected_only
    then let c := connected_val M (sensor_ixs agent) (motor_ixs agent) in
         (h ++ c.1, match c.2 with
                    | inl e => inl e
                    | inr c => connections_by_type_val M agent (list_to_set c)
                    end)
    else (h, connections_by_type_val M agent (list_to_set (seq 0 (n_nodes agent)))).
Proof.
  intros Hl. unfold number_of_connections_by_type, connections_by_type_val.
  destruct connected_only.
  - unfold mbind at 1, py_bind at 1. unfold mbind at 1, py_bind at 1.
    rewrite (connected_nodes_run _ _ M Hl).
    destruct (connected_val M (sensor_ixs agent) (motor_ixs agent)) as [k [e|c]];
      simpl; [done|].
    assert ((h ++ k) !! cm agent = Some M) as Hl' by by apply lookup_app_l_Some.
    py_unfold.
    repeat (rewrite (number_of_connections_run _ _ _ _ M Hl');
            destruct (connections_val M _ _); [done|]).
    done.
  - py_unfold.
    repeat (rewrite (number_of_connections_run _ _ _ _ M Hl);
            destruct (connections_val M _ _); [done|]).
    done.
Qed.

Lemma number_of_connected_nodes_by_type_run agent (h : heap) M cS b cM :
  h !! cm agent = Some M →
  sensors_val M (sensor_ixs agent) = inr cS →
  (dense_val M false).2 = inr b →
  motors_val M (motor_ixs agent) = inr cM →
  number_of_connected_nodes_by_type agent h
  = (h ++ [strip M],
     inr (pd.of_dict [("cN", Int (Z.of_nat cS + Z.of_nat (np.count_true b) + Z.of_nat cM));
                      ("cS", Int (Z.of_nat cS));
                      ("cH", Int (Z.of_nat (np.count_true b)));
                      ("cM", Int (Z.of_nat cM))]%string [1])).
Proof.
  intros Hl HS Hb HM. unfold number_of_connected_nodes_by_type. py_unfold.
  rewrite (number_of_connected_sensors_run _ _ _ M Hl), HS.
  rewrite (number_of_densely_connected_nodes_run _ _ _ M Hl), Hb.
  apply dense_val_false_inr in Hb as (_ & -> & _).
  rewrite (number_of_connected_motors_run _ _ _ M), HM; [done|].
  by apply lookup_app_l_Some.
Qed.

Lemma bind_inr {A B : Type} (m : py A) (f : A → py B) (h h' : heap) (a : A) :
  m h = (h', inr a) → (m ≫= f) h = f a h'.
Proof. intros Hm. unfold mbind, py_bind. by rewrite Hm. Qed.

Lemma take_rows_inr_iff M ixs :
  (∃ rows, np.take_rows M ixs = inr rows) ↔ Forall (λ i, i < length M)%nat ixs.
Proof.
  unfold np.take_rows. induction ixs as [|i ixs IH]; simpl.
  - split; [by constructor|by eauto].
  - rewrite Forall_cons, <- IH. destruct (M !! i) as [row|] eqn:Hi.
    + apply lookup_lt_Some in Hi as Hlt. destruct (mapM_res _ ixs) as [e|rows].
      * split; [by intros [? ?]|]. by intros [_ [? ?]].
      * split; eauto.
    + apply lookup_ge_None in Hi. split; [by intros [? ?]|]. intros [? _]. lia.
Qed.

Lemma ncols_strip M : np.ncols (strip M) = np.ncols M.
Proof. destruct M as [|row M]; [done|]. simpl. by rewrite length_insert. Qed.

Lemma intersection_empty ixs : intersection ∅ ixs = [].
Proof.
  unfold intersection. rewrite (left_absorb_L ∅ (∩)). apply elements_empty.
Qed.

Lemma connected_nodes_unallocated agent (h : heap) :
  h !! cm agent = None → connected_nodes agent h = (h, inl Unallocated).
Proof. intros Hl. unfold connected_nodes. py_unfold. by rewrite Hl. Qed.

(** ** Row and column sums, larger matrices *)

Lemma wrap64_id (z : Z) : - 2 ^ 63 ≤ z < 2 ^ 63 → np.wrap64 z = z.
Proof.
  intros Hz. unfold np.wrap64. rewrite Z.mod_small; lia.
Qed.

Lemma sumZ_total (v : list Z) :
  - 2 ^ 63 ≤ total v < 2 ^ 63 → np.sumZ v = total v.
Proof. apply wrap64_id. Qed.

Lemma total_mono (u v : list Z) : Forall2 Z.le u v → total u ≤ total v.
Proof. induction 1; simpl; lia. Qed.

Lemma total_nonneg (u : list Z) : Forall (λ x, 0 ≤ x) u → 0 ≤ total u.
Proof. induction 1; simpl; lia. Qed.


(** At most [n] weights [w] with [n * w < 2^31] sum to less than [2^31]. *)
Lemma total_small (n : nat) (u : list Z) :
  Forall (λ x, 0 ≤ x ∧ x * Z.of_nat n < 2 ^ 31) u → (length u ≤ n)%nat →
  0 ≤ total u < 2 ^ 31.
Proof.
  intros Hu Hlen.
  assert (0 ≤ total u ∧ total u * Z.of_nat n ≤ Z.of_nat (length u) * (2 ^ 31 - 1)) as [H0 Hn].
  { clear Hlen. induction Hu as [|x u [Hx Hxn] Hu IH]; simpl; [lia|].
    destruct IH as [IH0 IHn]. split; [lia|].
    rewrite Nat2Z.inj_succ. lia. }
  split; [done|]. destruct (decide (n = 0)%nat) as [->|Hn0].
  - destruct u; [simpl; lia|simpl in Hlen; lia].
  - nia.
Qed.

Lemma default_lookup_mono (u v : list Z) (j : nat) :
  Forall2 Z.le u v → default 0 (u !! j) ≤ default 0 (v !! j).
Proof.
  intros H. pose proof (proj1 (Forall2_lookup _ _ _) H j) as Hj.
  destruct Hj; simpl; [done|lia].
Qed.

Lemma small_nonneg n M : small n M → nonneg M.
Proof.
  intros H. eapply Forall_impl; [exact H|]. intros row Hrow. simpl.
  eapply Forall_impl; [exact Hrow|]. simpl. intros x [Hx _]. exact Hx.
Qed.

(** Under a matrix of small weights, a matrix of non-negative weights has
    small weights. *)
Lemma small_mle n M M' : nonneg M → mle M M' → small n M' → small n M.
Proof.
  intros Hnn Hle Hs. apply Forall_lookup. intros i row Hi.
  pose proof (proj1 (Forall2_lookup _ _ _) Hle i) as Hi'. rewrite Hi in Hi'.
  inversion Hi' as [? row' Hrow Heq1 Heq2|]; subst.
  pose proof (Forall_lookup_1 _ _ _ _ Hnn Hi) as Hrow0.
  assert (M' !! i = Some row') as Hi2 by done.
  pose proof (Forall_lookup_1 _ _ _ _ Hs Hi2) as Hrow1. simpl in Hrow0, Hrow1.
  apply Forall_lookup. intros j x Hj.
  pose proof (proj1 (Forall2_lookup _ _ _) Hrow j) as Hj'. rewrite Hj in Hj'.
  inversion Hj' as [? x' Hxx' Heq3 Heq4|]; subst.
  assert (row' !! j = Some x') as Hj2 by done.
  pose proof (Forall_lookup_1 _ _ _ _ Hrow0 Hj) as Hx. simpl in Hx.
  pose proof (Forall_lookup_1 _ _ _ _ Hrow1 Hj2) as [Hx' Hx'n]. nia.
Qed.

(** On an [n] by [n] array of small weights the sums of numpy are the sums
    of integers, and are below [2^31]. *)
Lemma rowsum_small n M v :
  square n M → small n M →
  rowsum M v = total (default [] (M !! v)) ∧ 0 ≤ rowsum M v < 2 ^ 31.
Proof.
  intros [Hlen Hrows] Hs. unfold rowsum.
  assert (0 ≤ total (default [] (M !! v)) < 2 ^ 31) as Hb.
  { destruct (M !! v) as [row|] eqn:Hv; simpl; [|lia].
    apply (total_small n).
    - by apply (Forall_lookup_1 _ _ _ _ Hs Hv).
    - by rewrite (Forall_lookup_1 _ _ _ _ Hrows Hv). }
  rewrite sumZ_total by lia. done.
Qed.

Lemma colsum_small n M v :
  square n M → small n M →
  colsum M v = total (map (λ row, default 0 (row !! v)) M) ∧ 0 ≤ colsum M v < 2 ^ 31.
Proof.
  intros [Hlen Hrows] Hs. unfold colsum.
  assert (0 ≤ total (map (λ row, default 0 (row !! v)) M) < 2 ^ 31) as Hb.
  { apply (total_small n); [|by rewrite length_map, Hlen].
    apply Forall_fmap. eapply Forall_impl; [exact Hs|]. intros row Hrow. simpl.
    destruct (row !! v) as [x|] eqn:Hx; simpl; [|lia].
    by apply (Forall_lookup_1 _ _ _ _ Hrow Hx). }
  rewrite sumZ_total by lia. done.
Qed.

(** The product of two such sums does not overflow. *)
Lemma wrap64_product (a b : Z) :
  0 ≤ a < 2 ^ 31 → 0 ≤ b < 2 ^ 31 → np.wrap64 (a * b) = a * b.
Proof. intros Ha Hb. apply wrap64_id. nia. Qed.


Lemma nonneg_strip M : nonneg M → nonneg (strip M).
Proof.
  intros H. apply Forall_lookup. intros i row. rewrite strip_lookup.
  destruct (M !! i) as [row0|] eqn:Hi; simpl; [|done]. intros [= <-].
  pose proof (Forall_lookup_1 _ _ _ _ H Hi) as Hrow.
  destruct (decide (i < length row0)%nat).
  - by apply Forall_insert.
  - by rewrite list_insert_ge by lia.
Qed.

Lemma square_strip n M : square n M → square n (strip M).
Proof.
  intros [Hlen Hrows]. split; [by rewrite length_strip|].
  apply Forall_lookup. intros i row. rewrite strip_lookup.
  destruct (M !! i) as [row0|] eqn:Hi; simpl; [|done]. intros [= <-].
  rewrite length_insert. by eapply (Forall_lookup_1 _ _ _ _ Hrows).
Qed.

Lemma mle_square n M M' : mle M M' → square n M → square n M'.
Proof.
  intros H [Hlen Hrows]. split.
  - by rewrite <- (Forall2_length _ _ _ H).
  - apply Forall_lookup. intros i row' Hi.
    pose proof (proj1 (Forall2_lookup _ _ _) H i) as Hi'. rewrite Hi in Hi'.
    inversion Hi' as [row ? Hrow Heq|]; subst.
    rewrite <- (Forall2_length _ _ _ Hrow).
    by eapply (Forall_lookup_1 _ _ _ _ Hrows).
Qed.

Lemma small_strip n M : small n M → small n (strip M).
Proof.
  intros H. apply Forall_lookup. intros i row. rewrite strip_lookup.
  destruct (M !! i) as [row0|] eqn:Hi; simpl; [|done]. intros [= <-].
  pose proof (Forall_lookup_1 _ _ _ _ H Hi) as Hrow.
  destruct (decide (i < length row0)%nat).
  - apply Forall_insert; [done|]. simpl. lia.
  - by rewrite list_insert_ge by lia.
Qed.

Lemma rowsum_mono n M M' v :
  square n M → nonneg M → mle M M' → small n M' → rowsum M v ≤ rowsum M' v.
Proof.
  intros Hsq Hnn Hle Hs.
  destruct (rowsum_small n M v Hsq (small_mle n M M' Hnn Hle Hs)) as [-> _].
  destruct (rowsum_small n M' v (mle_square n M M' Hle Hsq) Hs) as [-> _].
  pose proof (proj1 (Forall2_lookup _ _ _) Hle v) as Hv.
  destruct Hv; simpl; [by apply total_mono|done].
Qed.

Lemma colsum_mono n M M' v :
  square n M → nonneg M → mle M M' → small n M' → colsum M v ≤ colsum M' v.
Proof.
  intros Hsq Hnn Hle Hs.
  destruct (colsum_small n M v Hsq (small_mle n M M' Hnn Hle Hs)) as [-> _].
  destruct (colsum_small n M' v (mle_square n M M' Hle Hsq) Hs) as [-> _].
  apply total_mono. apply Forall2_fmap.
  eapply Forall2_impl; [exact Hle|]. intros u w. apply default_lookup_mono.
Qed.


(** ** The connected nodes, by their sums *)

Lemma take_rows_inr M ixs rows :
  np.take_rows M ixs = inr rows → rows = map (λ i, default [] (M !! i)) ixs.
Proof.
  unfold np.take_rows. revert rows. induction ixs as [|i ixs IH]; intros rows; simpl.
  - by intros [= <-].
  - destruct (M !! i) as [row|]; [|done].
    destruct (mapM_res _ ixs) as [e|rows']; [done|].
    intros [= <-]. simpl. f_equal. by apply IH.
Qed.

Lemma sum_axis1_take_rows M ixs :
  np.sum_axis1 (map (λ i, default [] (M !! i)) ixs) = map (rowsum M) ixs.
Proof. unfold np.sum_axis1. by rewrite map_map. Qed.

Lemma take_cols_inr M ixs cols :
  np.take_cols M ixs = inr cols →
  cols = map (λ row, map (λ j, default 0 (row !! j)) ixs) M
  ∧ Forall (λ j, j < np.ncols M)%nat ixs.
Proof.
  unfold np.take_cols. destruct (forallb _ ixs) eqn:Hall; [|done].
  intros [= <-]. split; [done|]. apply Forall_forall. intros j Hj.
  rewrite forallb_forall in Hall. apply list_elem_of_In in Hj.
  specialize (Hall j Hj). by apply bool_decide_eq_true in Hall.
Qed.

Lemma sum_axis0_take_cols M ixs :
  M ≠ [] →
  np.sum_axis0 (map (λ row, map (λ j, default 0 (row !! j)) ixs) M) = map (colsum M) ixs.
Proof.
  intros HM. unfold np.sum_axis0.
  assert (np.ncols (map (λ row, map (λ j, default 0 (row !! j)) ixs) M) = length ixs)
    as ->.
  { destruct M; [done|]. simpl. by rewrite length_map. }
  apply list_eq. intros p. rewrite !list_lookup_fmap.
  destruct (ixs !! p) as [j|] eqn:Hp; simpl.
  - rewrite lookup_seq_lt by by eapply lookup_lt_Some. simpl. f_equal.
    unfold colsum. rewrite map_map. f_equal. apply map_ext. intros row.
    by rewrite list_lookup_fmap, Hp.
  - rewrite lookup_seq_ge by by apply lookup_ge_None. done.
Qed.

Lemma elem_of_nonzero (b : list bool) (p : nat) :
  p ∈ np.nonzero b ↔ b !! p = Some true.
Proof.
  unfold np.nonzero. rewrite list_elem_of_filter, elem_of_seq. split; [by intros [? _]|].
  intros Hp. split; [done|]. apply lookup_lt_Some in Hp. lia.
Qed.

Lemma elem_of_take_nonzero (a : list nat) (f : nat → bool) (v : nat) :
  v ∈ np.take a (np.nonzero (map f a)) ↔ v ∈ a ∧ f v = true.
Proof.
  unfold np.take. rewrite list_elem_of_omap. split.
  - intros (p & Hp & Hv). apply elem_of_nonzero in Hp.
    rewrite list_lookup_fmap, Hv in Hp. simpl in Hp. split; [|congruence].
    eapply list_elem_of_lookup_2. done.
  - intros [Hv Hf]. apply list_elem_of_lookup_1 in Hv as [p Hp]. exists p.
    split; [|done]. apply elem_of_nonzero. by rewrite list_lookup_fmap, Hp, <- Hf.
Qed.

Lemma map_lookup_seq {A : Type} (f : list Z → A) (M : ndarray) :
  map f M = map (λ v, f (default [] (M !! v))) (seq 0 (length M)).
Proof.
  apply list_eq. intros v. rewrite !list_lookup_fmap.
  destruct (M !! v) as [row|] eqn:Hv; simpl.
  - rewrite lookup_seq_lt by by eapply lookup_lt_Some. simpl. by rewrite Hv.
  - rewrite lookup_seq_ge by by apply lookup_ge_None. done.
Qed.

Lemma ncols_square n M : square n M → np.ncols M = n.
Proof.
  intros [Hlen Hrows]. destruct M as [|row M]; [done|]. simpl.
  by inversion Hrows.
Qed.

(** On a square matrix the flags are, node by node, whether the product of
    the column sum and the row sum is positive. *)
Lemma flags_val_square n M :
  square n M →
  flags_val M
  = inr (map (λ v, bool_decide (0 < np.wrap64 (colsum M v * rowsum M v))) (seq 0 n)).
Proof.
  intros Hsq. unfold flags_val, np.mul, np.sum_axis0, np.sum_axis1.
  rewrite (ncols_square n M Hsq). destruct Hsq as [Hlen _].
  rewrite (map_lookup_seq np.sumZ M), Hlen.
  rewrite decide_True by by rewrite !length_map.
  f_equal. unfold np.gt0. apply list_eq. intros v.
  rewrite list_lookup_fmap, lookup_zip_with, !list_lookup_fmap.
  destruct (seq 0 n !! v) as [v'|] eqn:Hv; simpl; [|done].
  apply lookup_seq in Hv as [-> _]. done.
Qed.

Lemma lookup_flags n (f : nat → bool) v :
  map f (seq 0 n) !! v = Some true ↔ (v < n)%nat ∧ f v = true.
Proof.
  rewrite list_lookup_fmap. split.
  - destruct (seq 0 n !! v) as [v'|] eqn:Hv; simpl; [|done].
    apply lookup_seq in Hv as [-> ?]. intros [= ->]. split; [lia|done].
  - intros [Hv Hf]. rewrite lookup_seq_lt by done. simpl. by rewrite Hf.
Qed.

Lemma elem_of_sort (l : list nat) v : v ∈ np.sort l ↔ v ∈ l.
Proof. unfold np.sort. by rewrite merge_sort_Permutation. Qed.

(** The nodes that [connected_nodes] returns for a square matrix. *)
Lemma elem_of_connected n M sensors motors c v :
  square n M →
  (connected_val M sensors motors).2 = inr c →
  v ∈ c ↔ (v ∈ sensors ∧ 0 < rowsum (strip M) v)
          ∨ (v ∈ motors ∧ 0 < colsum (strip M) v)
          ∨ ((v < n)%nat ∧ 0 < np.wrap64 (colsum (strip M) v * rowsum (strip M) v)).
Proof.
  intros Hsq Hc.
  destruct (connected_val_inr _ _ _ _ Hc)
    as (rows & cols & b & Hst & Hs & Hm & Hrows & Hcols & Hb & ->).
  apply take_rows_inr in Hrows as ->. apply take_cols_inr in Hcols as [-> Hin].
  rewrite (flags_val_square n) in Hb by by apply square_strip.
  injection Hb as <-.
  assert (strip M ≠ []) as Hne.
  { destruct motors as [|m ?]; [done|]. inversion Hin; subst.
    destruct (strip M); [simpl in *; lia|done]. }
  rewrite sum_axis1_take_rows, sum_axis0_take_cols by done.
  unfold np.gt0. rewrite !map_map.
  rewrite elem_of_sort, !elem_of_app, !elem_of_take_nonzero, elem_of_nonzero, lookup_flags.
  rewrite !bool_decide_eq_true. done.
Qed.


(** ** Counting connections *)

Lemma count_true_app (u v : list bool) :
  np.count_true (u ++ v) = (np.count_true u + np.count_true v)%nat.
Proof. unfold np.count_true. by rewrite filter_app, length_app. Qed.

Lemma count_true_gt0 M i (b : list nat) :
  np.count_true (np.gt0 (map (λ j, np.entry M i j) b)) = sum_list_with (positive M i) b.
Proof.
  induction b as [|j b IH]; [done|]. simpl.
  change (bool_decide (0 < np.entry M i j) :: ?l) with ([bool_decide (0 < np.entry M i j)] ++ l).
  rewrite count_true_app, IH. f_equal. unfold positive, np.count_true.
  by destruct (bool_decide _).
Qed.

Lemma count_positive_take_ix M (a b : list nat) :
  np.count_positive (map (λ i, map (λ j, np.entry M i j) b) a)
  = sum_list_with (λ i, sum_list_with (positive M i) b) a.
Proof.
  unfold np.count_positive. induction a as [|i a IH]; [done|]. simpl.
  by rewrite count_true_app, count_true_gt0, IH.
Qed.

Lemma connections_val_inr M a b c :
  connections_val M a b = inr c →
  c = sum_list_with (λ i, sum_list_with (positive M i) b) a.
Proof.
  unfold connections_val, np.take_ix. destruct (_ || _); [|done].
  intros [= <-]. apply count_positive_take_ix.
Qed.

Lemma sum_list_with_le {A : Type} (f g : A → nat) (l : list A) :
  (∀ x, f x ≤ g x)%nat → (sum_list_with f l ≤ sum_list_with g l)%nat.
Proof.
  intros Hfg. induction l as [|x l IH]; simpl; [done|]. pose proof (Hfg x). lia.
Qed.

Lemma sum_list_with_mono {A : Type} (f g : A → nat) (l k : list A) :
  (∀ x, f x ≤ g x)%nat → l ⊆+ k → (sum_list_with f l ≤ sum_list_with g k)%nat.
Proof.
  intros Hfg Hlk. apply submseteq_Permutation in Hlk as [k' ->].
  rewrite sum_list_with_app. pose proof (sum_list_with_le f g l Hfg). lia.
Qed.

Lemma entry_mono M M' i j : mle M M' → np.entry M i j ≤ np.entry M' i j.
Proof.
  intros H. unfold np.entry. pose proof (proj1 (Forall2_lookup _ _ _) H i) as Hi.
  destruct Hi; [by apply default_lookup_mono|done].
Qed.

Lemma positive_mono M M' i j : mle M M' → (positive M i j ≤ positive M' i j)%nat.
Proof.
  intros H. pose proof (entry_mono _ _ i j H). unfold positive.
  repeat case_bool_decide; lia.
Qed.

(** More rows, more columns and larger entries: at least as many connections. *)
Lemma connections_val_mono M M' (a a' b b' : list nat) c c' :
  mle M M' → a ⊆+ a' → b ⊆+ b' →
  connections_val M a b = inr c → connections_val M' a' b' = inr c' →
  (c ≤ c')%nat.
Proof.
  intros Hle Ha Hb Hc Hc'.
  apply connections_val_inr in Hc as ->. apply connections_val_inr in Hc' as ->.
  apply sum_list_with_mono; [|done]. intros i.
  apply sum_list_with_mono; [|done]. intros j. by apply positive_mono.
Qed.

Lemma intersection_mono (ind ind' : gset nat) (ixs : list nat) :
  ind ⊆ ind' → intersection ind ixs ⊆+ intersection ind' ixs.
Proof.
  intros Hsub. unfold intersection. apply elements_submseteq.
  intros x [Hx Hixs]%elem_of_intersection. apply elem_of_intersection.
  split; [by apply Hsub|done].
Qed.

Lemma column_of_dict4 (k1 k2 k3 k4 : string) (x1 x2 x3 x4 : cell) (col : string) (v : cell) :
  pd.column (pd.of_dict [(k1, x1); (k2, x2); (k3, x3); (k4, x4)] [1]) col = Some [v] →
  (col = k1 ∧ v = x1) ∨ (col = k2 ∧ v = x2) ∨ (col = k3 ∧ v = x3) ∨ (col = k4 ∧ v = x4).
Proof.
  unfold pd.column, pd.of_dict. simpl.
  repeat (case_decide; simpl; [intros [= <-]; by eauto 10|]). done.
Qed.

Lemma connections_by_type_val_mono M M' agent (ind ind' : gset nat) df df' col x x' :
  mle M M' → ind ⊆ ind' →
  connections_by_type_val M agent ind = inr df →
  connections_by_type_val M' agent ind' = inr df' →
  pd.column df col = Some [Int x] → pd.column df' col = Some [Int x'] →
  x ≤ x'.
Proof.
  intros Hle Hind. unfold connections_by_type_val. py_unfold.
  pose proof (intersection_mono _ _ (sensor_ixs agent) Hind) as HS.
  pose proof (intersection_mono _ _ (motor_ixs agent) Hind) as HM.
  pose proof (intersection_mono _ _ (hidden_ixs agent) Hind) as HH.
  set (Sx := intersection ind (sensor_ixs agent)) in *.
  set (Mo := intersection ind (motor_ixs agent)) in *.
  set (Hx := intersection ind (hidden_ixs agent)) in *.
  set (Sx' := intersection ind' (sensor_ixs agent)) in *.
  set (Mo' := intersection ind' (motor_ixs agent)) in *.
  set (Hx' := intersection ind' (hidden_ixs agent)) in *.
  destruct (connections_val M Sx Mo) as [|s_m] eqn:H1; [done|].
  destruct (connections_val M Sx Hx) as [|s_h] eqn:H2; [done|].
  destruct (connections_val M Hx Hx) as [|h_h] eqn:H3; [done|].
  destruct (connections_val M Hx Mo) as [|h_m] eqn:H4; [done|].
  intros [= <-].
  destruct (connections_val M' Sx' Mo') as [|s_m'] eqn:H1'; [done|].
  destruct (connections_val M' Sx' Hx') as [|s_h'] eqn:H2'; [done|].
  destruct (connections_val M' Hx' Hx') as [|h_h'] eqn:H3'; [done|].
  destruct (connections_val M' Hx' Mo') as [|h_m'] eqn:H4'; [done|].
  intros [= <-] Hcol Hcol'.
  pose proof (connections_val_mono _ _ _ _ _ _ _ _ Hle HS HM H1 H1').
  pose proof (connections_val_mono _ _ _ _ _ _ _ _ Hle HS HH H2 H2').
  pose proof (connections_val_mono _ _ _ _ _ _ _ _ Hle HH HH H3 H3').
  pose proof (connections_val_mono _ _ _ _ _ _ _ _ Hle HH HM H4 H4').
  apply column_of_dict4 in Hcol. apply column_of_dict4 in Hcol'.
  destruct Hcol as [[-> [= ->]]|[[-> [= ->]]|[[-> [= ->]]|[-> [= ->]]]]];
    destruct Hcol' as [[? [= ->]]|[[? [= ->]]|[[? [= ->]]|[? [= ->]]]]];
    try done; lia.
Qed.

(** ** Betweenness of nodes without inputs or outputs *)

Lemma sum_list_with_zero {A : Type} (f : A → nat) (l : list A) :
  (∀ x, f x = 0%nat) → sum_list_with f l = 0%nat.
Proof. intros Hf. induction l as [|x l IH]; simpl; [done|]. rewrite Hf, IH. done. Qed.













(** ** Counts and lengths *)

Lemma filter_ext_elem {A : Type} (P Q : A → Prop) `{!∀ x, Decision (P x)}
    `{!∀ x, Decision (Q x)} (l : list A) :
  (∀ x, x ∈ l → P x ↔ Q x) → filter P l = filter Q l.
Proof.
  induction l as [|x l IH]; intros HPQ; [done|]. rewrite !filter_cons.
  rewrite IH by (intros y Hy; apply HPQ; by right).
  destruct (HPQ x ltac:(by left)) as [HP HQ].
  destruct (decide (P x)), (decide (Q x)); tauto.
Qed.

Lemma nonzero_app (u v : list bool) :
  np.nonzero (u ++ v) = np.nonzero u ++ map (λ p, length u + p)%nat (np.nonzero v).
Proof.
  unfold np.nonzero. rewrite length_app, seq_app, filter_app. f_equal.
  - apply filter_ext_elem. intros p Hp.
    apply elem_of_seq in Hp. by rewrite lookup_app_l by lia.
  - simpl.
    replace (seq (length u) (length v)) with (map (Nat.add (length u)) (seq 0 (length v)))
      by (rewrite <- (Nat.add_0_r (length u)) at 2; apply fmap_add_seq).
    induction (seq 0 (length v)) as [|p l IH]; [done|]. simpl.
    rewrite !filter_cons.
    rewrite lookup_app_r by lia. replace (length u + p - length u)%nat with p by lia.
    destruct (decide (v !! p = Some true)); simpl; by rewrite IH.
Qed.

(** As many positions are returned as there are [True] flags. *)
Lemma length_nonzero (b : list bool) : length (np.nonzero b) = np.count_true b.
Proof.
  induction b as [|x b IH]; [done|].
  change (x :: b) with ([x] ++ b). rewrite nonzero_app, count_true_app, length_app.
  rewrite length_map, IH. f_equal. by destruct x.
Qed.

(** X2: the count of densely connected nodes is the number of indices that
    [densely_connected_nodes] returns. *)
Lemma number_of_densely_connected_nodes_length (l : loc) (allow : bool) (h h1 h2 : heap)
    (c : nat) (ixs : list nat) :
  number_of_densely_connected_nodes l allow h = (h1, inr c) →
  densely_connected_nodes l allow h = (h2, inr ixs) →
  c = length ixs.
Proof.
  destruct (h !! l) as [M|] eqn:Hl.
  - rewrite (number_of_densely_connected_nodes_run _ _ _ M Hl).
    rewrite (densely_connected_nodes_run _ _ _ M Hl).
    destruct (dense_val M allow).2 as [e|b]; [done|].
    intros [= _ <-] [= _ <-]. by rewrite length_nonzero.
  - unfold number_of_densely_connected_nodes. py_unfold. by rewrite Hl.
Qed.

(** X3: whatever [connected_nodes] returns is in ascending order. *)
Lemma connected_nodes_sorted (agent : Agent) (h h' : heap) (c : list nat) :
  connected_nodes agent h = (h', inr c) → Sorted le c.
Proof.
  destruct (h !! cm agent) as [M|] eqn:Hl;
    [|by rewrite connected_nodes_unallocated].
  rewrite (connected_nodes_run _ _ M Hl). intros Hc.
  apply pair_equal_spec in Hc as [_ Hc].
  destruct (connected_val_inr _ _ _ _ Hc) as (? & ? & ? & _ & _ & _ & _ & _ & _ & ->).
  apply (Sorted_merge_sort le).
Qed.

(** X4: on a square matrix with non-empty index lists in range,
    [connected_nodes] returns. *)
Lemma connected_nodes_returns (agent : Agent) (h : heap) (n : nat) (M : ndarray) :
  h !! cm agent = Some M → square n M →
  sensor_ixs agent ≠ [] → motor_ixs agent ≠ [] →
  Forall (λ i, i < n)%nat (sensor_ixs agent) →
  Forall (λ i, i < n)%nat (motor_ixs agent) →
  ∃ c, connected_nodes agent h = (h ++ [strip M; strip M], inr c).
Proof.
  intros Hl Hsq Hs Hm Hsin Hmin.
  pose proof (strip_loop_square n M Hsq) as Hst.
  pose proof (square_strip n M Hsq) as Hsq'.
  destruct (proj2 (take_rows_inr_iff (strip M) (sensor_ixs agent))) as [rows Hrows].
  { rewrite length_strip. by destruct Hsq as [-> _]. }
  assert (np.take_cols (strip M) (motor_ixs agent)
          = inr (map (λ row, map (λ j, default 0 (row !! j)) (motor_ixs agent)) (strip M)))
    as Hcols.
  { unfold np.take_cols. rewrite (ncols_square n _ Hsq').
    assert (forallb (λ j, bool_decide (j < n)%nat) (motor_ixs agent) = true) as ->; [|done].
    apply forallb_forall. intros j Hj. apply bool_decide_eq_true.
    apply list_elem_of_In in Hj. by eapply (proj1 (Forall_forall _ _) Hmin). }
  rewrite (connected_nodes_run _ _ M Hl).
  erewrite connected_val_ok; [by eexists|by rewrite Hst|done..| |].
  - done.
  - by apply flags_val_square.
Qed.

Lemma count_true_map {A : Type} (f : A → bool) (l : list A) :
  np.count_true (map f l) = length (filter (λ x, f x = true) l).
Proof.
  unfold np.count_true. induction l as [|x l IH]; [done|].
  rewrite map_cons, !filter_cons.
  destruct (decide (f x = true)) as [Hf|Hf]; simpl; by rewrite IH.
Qed.

(** On a square matrix [number_of_densely_connected_nodes] counts the
    nodes, of any group, whose column sum and row sum without the diagonal
    have a positive int64 product. *)
Lemma number_of_densely_connected_nodes_square (l : loc) (h : heap) (n : nat) (M : ndarray) :
  h !! l = Some M → square n M →
  number_of_densely_connected_nodes l false h
  = (h ++ [strip M],
     inr (length (filter (λ v, 0 < np.wrap64 (colsum (strip M) v * rowsum (strip M) v))
                         (seq 0 n)))).
Proof.
  intros Hl Hsq. rewrite (number_of_densely_connected_nodes_run _ _ _ M Hl).
  pose proof (strip_loop_square n M Hsq) as Hst.
  rewrite dense_val_false_ok by by rewrite Hst. cbn [fst snd].
  rewrite (flags_val_square n) by by apply square_strip.
  rewrite count_true_map. do 3 f_equal.
  apply list_filter_iff. intros v. by rewrite bool_decide_eq_true.
Qed.

Lemma length_take (a idx : list nat) :
  Forall (λ p, p < length a)%nat idx → length (np.take a idx) = length idx.
Proof.
  unfold np.take. induction 1 as [|p idx Hp _ IH]; [done|].
  destruct (lookup_lt_is_Some_2 a p Hp) as [x Hx].
  cbn. rewrite Hx. cbn. f_equal. exact IH.
Qed.

Lemma length_take_nonzero (a : list nat) (b : list bool) :
  length b = length a → length (np.take a (np.nonzero b)) = np.count_true b.
Proof.
  intros Hlen. rewrite <- length_nonzero. apply length_take.
  apply Forall_forall. intros p Hp. apply elem_of_nonzero, lookup_lt_Some in Hp. lia.
Qed.

Lemma strip_row_id (M : ndarray) (i : nat) :
  np.entry M i i = 0 → (∀ row, M !! i = Some row → i < length row)%nat →
  strip M !! i = M !! i.
Proof.
  intros He Hlen. rewrite strip_lookup. unfold np.entry in He.
  destruct (M !! i) as [row|] eqn:Hi; simpl; [|done]. f_equal.
  apply list_insert_id. specialize (Hlen row eq_refl).
  destruct (lookup_lt_is_Some_2 row i Hlen) as [x Hx]. rewrite Hx in He. simpl in He.
  by subst.
Qed.

Lemma colsum_strip_id (M : ndarray) (j : nat) :
  np.entry M j j = 0 → colsum (strip M) j = colsum M j.
Proof.
  intros He. unfold colsum. f_equal. apply list_eq. intros i.
  rewrite !list_lookup_fmap, strip_lookup.
  destruct (M !! i) as [row|] eqn:Hi; simpl; [|done]. f_equal.
  destruct (decide (i = j)) as [->|Hne].
  - unfold np.entry in He. rewrite Hi in He.
    destruct (row !! j) as [x|] eqn:Hx; simpl in *.
    + rewrite list_lookup_insert_eq by by eapply lookup_lt_Some. simpl. by subst.
    + rewrite list_insert_ge by by apply lookup_ge_None. by rewrite Hx.
  - by rewrite list_lookup_insert_ne.
Qed.

Lemma square_lookup_length n M i row :
  square n M → M !! i = Some row → (i < length row)%nat.
Proof.
  intros [Hlen Hrows] Hi. rewrite (Forall_lookup_1 _ _ _ _ Hrows Hi).
  apply lookup_lt_Some in Hi. lia.
Qed.

(** X5: when no sensor and no motor has a self-loop, [cN] is the length of
    what [connected_nodes] returns. *)
Lemma cN_is_length_without_self_loops (agent : Agent) (h h2 : heap) (n : nat)
    (M : ndarray) (c : list nat) :
  h !! cm agent = Some M → square n M →
  (∀ v, v ∈ sensor_ixs agent ∨ v ∈ motor_ixs agent → np.entry M v v = 0) →
  connected_nodes agent h = (h2, inr c) →
  ∃ h1 df, number_of_connected_nodes_by_type agent h = (h1, inr df)
           ∧ pd.column df "cN" = Some [Int (Z.of_nat (length c))].
Proof.
  intros Hl Hsq Hdiag Hc. rewrite (connected_nodes_run _ _ M Hl) in Hc.
  apply pair_equal_spec in Hc as [_ Hc].
  destruct (connected_val_inr _ _ _ _ Hc)
    as (rows & cols & b & Hst & Hs & Hm & Hrows & Hcols & Hb & ->).
  assert (np.take_rows M (sensor_ixs agent) = inr rows) as Hrows'.
  { rewrite <- Hrows. unfold np.take_rows.
    assert (∀ l : list nat, (∀ v, v ∈ l → v ∈ sensor_ixs agent) →
              mapM_res (λ i, match M !! i with Some row => inr row | None => inl IndexError end) l
              = mapM_res (λ i, match strip M !! i with Some row => inr row
                                                 | None => inl IndexError end) l) as Hgen.
    { induction l as [|i l IH]; intros Hin; [done|]. simpl.
      rewrite strip_row_id; [|apply Hdiag; left; apply Hin; by left|].
      - rewrite IH; [done|]. intros v Hv. apply Hin. by right.
      - intros row Hrow. by eapply square_lookup_length. }
    by apply Hgen. }
  apply take_rows_inr in Hrows as Hrows_eq.
  apply take_cols_inr in Hcols as [Hcols_eq Hin].
  assert (strip M ≠ []) as Hne.
  { destruct (motor_ixs agent) as [|m ?]; [done|]. inversion Hin; subst.
    destruct (strip M); [simpl in *; lia|done]. }
  assert (M ≠ []) as Hne' by (intros ->; by apply Hne).
  pose proof (number_of_connected_nodes_by_type_run agent h M
                (np.count_true (np.gt0 (np.sum_axis1 rows))) b
                (np.count_true (np.gt0 (map (colsum M) (motor_ixs agent)))) Hl) as Hrun.
  rewrite Hrun; clear Hrun.
  - eexists _, _. split; [done|]. unfold pd.column, pd.of_dict. simpl. do 3 f_equal.
    unfold np.sort. rewrite (Permutation_length (merge_sort_Permutation _ _)).
    rewrite !length_app. rewrite length_nonzero.
    rewrite !length_take_nonzero.
    + rewrite Hcols_eq, sum_axis0_take_cols by done.
      assert (map (colsum (strip M)) (motor_ixs agent) = map (colsum M) (motor_ixs agent))
        as ->; [|lia].
      apply map_ext_in. intros m Hm'. apply colsum_strip_id, Hdiag. right.
      by apply list_elem_of_In.
    + rewrite Hcols_eq, sum_axis0_take_cols by done. unfold np.gt0. by rewrite !length_map.
    + rewrite Hrows_eq. unfold np.gt0, np.sum_axis1. by rewrite !length_map.
  - unfold sensors_val. by rewrite Hrows'.
  - by rewrite dense_val_false_ok.
  - unfold motors_val, np.take_cols. rewrite ncols_strip in Hin.
    assert (forallb (λ j, bool_decide (j < np.ncols M)%nat) (motor_ixs agent) = true) as ->.
    { apply forallb_forall. intros j Hj. apply bool_decide_eq_true.
      apply list_elem_of_In in Hj. by eapply (proj1 (Forall_forall _ _) Hin). }
    by rewrite sum_axis0_take_cols.
Qed.

(** ** The frame of the computations *)

Section frame.
Context {A B : Type}.
Implicit Types (n : nat) (l : loc).

Lemma preserves_ret n (x : A) (Q : A → Prop) : Q x → preserves n (mret x) Q.
Proof. intros HQ h Hn. py_unfold. simpl. naive_solver. Qed.

Lemma preserves_raise n (e : exn) (Q : A → Prop) : preserves n (raise e) Q.
Proof. intros h Hn. py_unfold. simpl. naive_solver. Qed.

Lemma preserves_lift n (r : res A) : preserves n (lift r) any.
Proof. intros h Hn. py_unfold. simpl. unfold any. naive_solver. Qed.

Lemma preserves_bind n (m : py A) (f : A → py B) (Q : A → Prop) (R : B → Prop) :
  preserves n m Q → (∀ a, Q a → preserves n (f a) R) → preserves n (m ≫= f) R.
Proof.
  intros Hm Hf h Hn. destruct (Hm h Hn) as (Hlen & Htake & HQ).
  unfold mbind, py_bind. destruct (m h) as [h' [e|a]]; simpl in *.
  - naive_solver.
  - destruct (Hf a (HQ a eq_refl) h' Hlen) as (?&Ht&?).
    split_and!; [done| |done]. by rewrite Ht.
Qed.
End frame.

Lemma preserves_get n l : preserves n (Store.get l) any.
Proof.
  intros h Hn. unfold Store.get, any. destruct (h !! l); simpl; naive_solver.
Qed.

Lemma preserves_alloc n M : preserves n (Store.alloc M) (λ l, n ≤ l)%nat.
Proof.
  intros h Hn. unfold Store.alloc. simpl. rewrite length_app. simpl.
  split_and!; [lia| |naive_solver]. by rewrite take_app_le.
Qed.

Lemma preserves_copy_copy n l : preserves n (Store.copy_copy l) (λ l', n ≤ l')%nat.
Proof.
  eapply preserves_bind; [apply preserves_get|]. intros M _. apply preserves_alloc.
Qed.

Lemma preserves_len n l : preserves n (Store.len l) any.
Proof.
  eapply preserves_bind; [apply preserves_get|]. intros M _. by apply preserves_ret.
Qed.

Lemma preserves_setitem n l i j v : (n ≤ l)%nat → preserves n (Store.setitem l i j v) any.
Proof.
  intros Hl h Hn. unfold Store.setitem, any.
  destruct (h !! l) as [M|]; simpl; [|naive_solver].
  destruct (M !! i) as [row|]; simpl; [|naive_solver].
  destruct (decide _); simpl; [|naive_solver].
  rewrite length_insert. split_and!; [done| |done].
  rewrite take_insert. by rewrite decide_False by lia.
Qed.

Lemma preserves_for_each n (range_ : list nat) (body : nat → py unit) :
  (∀ i, preserves n (body i) any) → preserves n (for_each range_ body) any.
Proof.
  intros Hbody. induction range_ as [|i rest IH]; simpl.
  - by apply preserves_ret.
  - eapply preserves_bind; [apply Hbody|]. intros _ _. apply IH.
Qed.

Lemma preserves_kill_self_loops n l : (n ≤ l)%nat → preserves n (kill_self_loops l) any.
Proof.
  intros Hl. eapply preserves_bind; [apply preserves_len|]. intros k _.
  apply preserves_for_each. intros i. by apply preserves_setitem.
Qed.

Create HintDb frame.
#[local] Hint Resolve preserves_get preserves_len preserves_lift preserves_alloc
  preserves_copy_copy preserves_raise : frame.

Ltac frame_step :=
  first
    [ solve [eauto with frame]
    | apply preserves_ret; exact I
    | eapply preserves_bind;
      [ first [ apply preserves_copy_copy | apply preserves_alloc
              | solve [eauto with frame] ] | intros ] ].

Lemma preserves_inputs_and_outputs n l : preserves n (inputs_and_outputs l) any.
Proof. unfold inputs_and_outputs. repeat frame_step. Qed.

Lemma preserves_number_of_densely_connected_nodes n l allow :
  preserves n (number_of_densely_connected_nodes l allow) any.
Proof.
  unfold number_of_densely_connected_nodes.
  eapply preserves_bind; [apply preserves_copy_copy|]. intros l' Hl'.
  eapply preserves_bind with (Q := any).
  { destruct allow; [by apply preserves_ret|by apply preserves_kill_self_loops]. }
  intros _ _. eapply preserves_bind; [apply preserves_inputs_and_outputs|].
  intros. by apply preserves_ret.
Qed.

Lemma preserves_densely_connected_nodes n l allow :
  preserves n (densely_connected_nodes l allow) any.
Proof.
  unfold densely_connected_nodes.
  eapply preserves_bind; [apply preserves_copy_copy|]. intros l' Hl'.
  eapply preserves_bind with (Q := any).
  { destruct allow; [by apply preserves_ret|by apply preserves_kill_self_loops]. }
  intros _ _. eapply preserves_bind; [apply preserves_inputs_and_outputs|].
  intros. by apply preserves_ret.
Qed.

#[local] Hint Resolve preserves_inputs_and_outputs preserves_number_of_densely_connected_nodes
  preserves_densely_connected_nodes : frame.

Lemma preserves_connected_nodes n agent : preserves n (connected_nodes agent) any.
Proof.
  unfold connected_nodes.
  eapply preserves_bind; [apply preserves_copy_copy|]. intros l' Hl'.
  eapply preserves_bind; [by apply preserves_kill_self_loops|]. intros _ _.
  repeat frame_step.
Qed.

Lemma preserves_number_of_connected_sensors n l ixs :
  preserves n (number_of_connected_sensors l ixs) any.
Proof. unfold number_of_connected_sensors. repeat frame_step. Qed.

Lemma preserves_number_of_connected_motors n l ixs :
  preserves n (number_of_connected_motors l ixs) any.
Proof. unfold number_of_connected_motors. repeat frame_step. Qed.

Lemma preserves_number_of_connections n l a b :
  preserves n (number_of_connections l a b) any.
Proof. unfold number_of_connections. repeat frame_step. Qed.

#[local] Hint Resolve preserves_connected_nodes preserves_number_of_connected_sensors
  preserves_number_of_connected_motors preserves_number_of_connections : frame.

Lemma preserves_number_of_connected_nodes_by_type n agent :
  preserves n (number_of_connected_nodes_by_type agent) any.
Proof. unfold number_of_connected_nodes_by_type. repeat frame_step. Qed.

Lemma preserves_number_of_connections_by_type n agent connected_only :
  preserves n (number_of_connections_by_type agent connected_only) any.
Proof.
  unfold number_of_connections_by_type.
  eapply preserves_bind with (Q := any).
  { destruct connected_only; repeat frame_step. }
  intros. repeat frame_step.
Qed.

Lemma preserves_average_betweenness_centrality n G connected_only :
  preserves n (average_betweenness_centrality G connected_only) any.
Proof.
  unfold average_betweenness_centrality.
  eapply preserves_bind with (Q := any).
  { destruct connected_only; repeat frame_step. }
  intros. repeat frame_step.
Qed.

Lemma preserves_get_graph n agent : preserves n (get_graph agent) any.
Proof. unfold get_graph. repeat frame_step. Qed.

#[local] Hint Resolve preserves_number_of_connected_nodes_by_type
  preserves_number_of_connections_by_type preserves_average_betweenness_centrality
  preserves_get_graph : frame.

Lemma preserves_fullStructuralAnalysis n agent connected_only :
  preserves n (fullStructuralAnalysis agent connected_only) any.
Proof.
  unfold fullStructuralAnalysis.
  do 3 frame_step.
  eapply preserves_bind with (Q := any).
  { destruct connected_only; repeat frame_step. }
  intros. repeat frame_step.
Qed.

Lemma preserves_lookup {A : Type} (m : py A) (Q : A → Prop) (h : heap) (l : loc) (M : ndarray) :
  preserves (length h) m Q → h !! l = Some M → (m h).1 !! l = Some M.
Proof.
  intros Hm Hl. destruct (Hm h) as (_ & Htake & _); [done|].
  assert (l < length h)%nat as Hlt by (by eapply lookup_lt_Some).
  rewrite <- (lookup_take_lt _ (length h)) by done.
  rewrite Htake. by rewrite lookup_take_lt.
Qed.

(** ** The columns of the report *)

Lemma bind_inv {A B : Type} (m : py A) (f : A → py B) (h h' : heap) (b : B) :
  (m ≫= f) h = (h', inr b) → ∃ h1 a, m h = (h1, inr a) ∧ f a h1 = (h', inr b).
Proof.
  unfold mbind, py_bind. destruct (m h) as [h1 [e|a]]; [done|]. eauto.
Qed.

Lemma lift_inv {A : Type} (r : res A) (h h' : heap) (a : A) :
  lift r h = (h', inr a) → r = inr a.
Proof. unfold lift. by intros [= _ ->]. Qed.

Lemma ret_inv {A : Type} (x a : A) (h h' : heap) :
  (mret x : py A) h = (h', inr a) → a = x.
Proof. unfold mret, py_ret. by intros [= _ ->]. Qed.

Lemma join_columns (l r d : pd.DataFrame) :
  pd.join l r = inr d → pd.columns d = pd.columns l ++ pd.columns r.
Proof. unfold pd.join. destruct (existsb _ _); [done|]. by intros [= <-]. Qed.

Lemma number_of_connected_nodes_by_type_columns agent (h h' : heap) df :
  number_of_connected_nodes_by_type agent h = (h', inr df) →
  pd.columns df = ["cN"; "cS"; "cH"; "cM"]%string.
Proof.
  unfold number_of_connected_nodes_by_type. intros H.
  do 3 apply bind_inv in H as (? & ? & _ & H).
  by apply ret_inv in H as ->.
Qed.

Lemma number_of_connections_by_type_columns agent flag (h h' : heap) df :
  number_of_connections_by_type agent flag h = (h', inr df) →
  pd.columns df = ["s_m"; "s_h"; "h_h"; "h_m"]%string.
Proof.
  unfold number_of_connections_by_type. intros H.
  do 5 apply bind_inv in H as (? & ? & _ & H).
  by apply ret_inv in H as ->.
Qed.

Lemma fullStructuralAnalysis_columns agent flag (h h' : heap) df :
  fullStructuralAnalysis agent flag h = (h', inr df) →
  pd.columns df = pd.columns (emptyStructuralAnalysis 1).
Proof.
  unfold fullStructuralAnalysis. intros H.
  apply bind_inv in H as (? & df1 & H1 & H).
  apply bind_inv in H as (? & df2 & H2 & H).
  apply bind_inv in H as (? & df3 & H3 & H).
  do 6 apply bind_inv in H as (? & ? & _ & H).
  apply lift_inv, join_columns in H. apply lift_inv, join_columns in H3.
  rewrite H, H3.
  rewrite (number_of_connected_nodes_by_type_columns _ _ _ _ H1).
  by rewrite (number_of_connections_by_type_columns _ _ _ _ _ H2).
Qed.

Lemma average_betweenness_centrality_run (G : nx.DiGraph) (h : heap) :
  G ≠ [] →
  average_betweenness_centrality G true h
  = (h ++ [G; (dense_val G false).1],
     match (dense_val G false).2 with
     | inl e => inl e
     | inr b => inr (np_truediv (nx.sumQ (nx.betweenness_centrality G))
                                (Z.of_nat (np.count_true b)))
     end).
Proof.
  intros HG. unfold average_betweenness_centrality. py_unfold.
  destruct G as [|row G']; [done|]. simpl nx.adjacency_matrix. cbv iota.
  rewrite (number_of_densely_connected_nodes_run _ _ _ (row :: G'))
    by apply lookup_app_end.
  rewrite <- app_assoc. by destruct (dense_val (row :: G') false).2.
Qed.

(** ** Division by a count of zero *)






(** ** Without a connected node *)

(** When [connected_nodes] returns no node, the report stops where the
    matrix is indexed by that array. *)
Lemma fullStructuralAnalysis_empty (agent : Agent) (h h1 : heap) :
  connected_nodes agent h = (h1, inr []) →
  ∃ h', fullStructuralAnalysis agent true h = (h', inl IndexError).
Proof.
  intros Hc. destruct (h !! cm agent) as [M|] eqn:Hl;
    [|by rewrite connected_nodes_unallocated in Hc].
  rewrite (connected_nodes_run _ _ M Hl) in Hc.
  apply pair_equal_spec in Hc as [_ Hc].
  destruct (connected_val_inr _ _ _ _ Hc)
    as (rows & cols & b & Hst & Hs & Hm & Hrows & Hcols & Hb & Hnil).
  destruct (proj2 (take_rows_inr_iff M (sensor_ixs agent))) as [sub Hsub].
  { rewrite <- (length_strip M). apply take_rows_inr_iff. eauto. }
  assert (∃ cM, motors_val M (motor_ixs agent) = inr cM) as [cM HcM].
  { unfold motors_val, np.take_cols in *. rewrite ncols_strip in Hcols.
    destruct (forallb _ _); [eauto|done]. }
  unfold fullStructuralAnalysis.
  erewrite bind_inr; last first.
  { eapply number_of_connected_nodes_by_type_run; [done| |by rewrite dense_val_false_ok|done].
    unfold sensors_val. by rewrite Hsub. }
  assert (∀ k, (h ++ k) !! cm agent = Some M) as Hl'
    by (intros k; by apply lookup_app_l_Some).
  erewrite bind_inr; last first.
  { rewrite (number_of_connections_by_type_run _ _ _ M (Hl' _)).
    cbv zeta. rewrite Hc. simpl list_to_set. unfold connections_by_type_val.
    rewrite !intersection_empty. reflexivity. }
  erewrite bind_inr; last by reflexivity.
  unfold mbind at 1, py_bind at 1.
  erewrite bind_inr; last first.
  { rewrite (connected_nodes_run _ _ M); last by rewrite <- app_assoc.
    rewrite Hc. reflexivity. }
  erewrite bind_inr; last first.
  { unfold Store.get. rewrite <- !app_assoc, Hl'. reflexivity. }
  eexists. reflexivity.
Qed.

(** * The claims of the specification *)

(** C1 (the code departs from it): the claim asks that [cN] of
    [number_of_connected_nodes_by_type] be the length of [connected_nodes].
    [connected_nodes] clears the diagonal before it looks for the sensors
    with outputs and the motors with inputs; [number_of_connected_nodes_by_type]
    passes the matrix as it is to [number_of_connected_sensors] and
    [number_of_connected_motors].  For the agent whose only edge is a
    self-loop on its sensor, [cN] is 1 and [connected_nodes] is empty. *)
Theorem cN_counts_sensor_self_loop :
  ∃ h1 h2 df,
    number_of_connected_nodes_by_type three_agent [self_loop_cm] = (h1, inr df)
    ∧ pd.column df "cN" = Some [Int 1]
    ∧ connected_nodes three_agent [self_loop_cm] = (h2, inr []).
Proof. eexists _, _, _. split_and!; by vm_compute. Qed.

(** C2: on the scenario of the specification (sensor 0, hidden 1 and 2,
    motor 3, edges 0→1, 1→2, 2→1, 2→3 of weight 1),
    [fullStructuralAnalysis] returns a report with cS=1, cH=2, cM=1, cN=4,
    s_h=1, h_h=2, h_m=1, s_m=0, len_LSCC=2 and len_LWCC=4, and the largest
    strongly connected component is {1,2}. *)
Theorem scenario_report :
  ∃ h' report,
    fullStructuralAnalysis scenario_agent true [scenario_cm] = (h', inr report)
    ∧ pd.column report "cS" = Some [Int 1]
    ∧ pd.column report "cH" = Some [Int 2]
    ∧ pd.column report "cM" = Some [Int 1]
    ∧ pd.column report "cN" = Some [Int 4]
    ∧ pd.column report "s_h" = Some [Int 1]
    ∧ pd.column report "h_h" = Some [Int 2]
    ∧ pd.column report "h_m" = Some [Int 1]
    ∧ pd.column report "s_m" = Some [Int 0]
    ∧ pd.column report "len_LSCC" = Some [Int 2]
    ∧ pd.column report "len_LWCC" = Some [Int 4]
    ∧ LSCC scenario_cm = inr (Some {[1; 2]})%nat.
Proof.
  eexists _, _. split; [vm_compute; reflexivity|].
  split_and!; by vm_compute.
Qed.

(** C3 (the code departs from it): the claim asks that [cH] count hidden
    nodes only.  [number_of_densely_connected_nodes] never reads
    [hidden_ixs]: it counts every node with an input and an output.  For
    the agent with one hidden node whose sensor also receives an edge
    (0→1, 1→0, 1→2), [cH] is 2. *)
Theorem cH_counts_sensor_with_input :
  ∃ h1 df,
    number_of_connected_nodes_by_type three_agent [feedback_cm] = (h1, inr df)
    ∧ pd.column df "cH" = Some [Int 2]
    ∧ hidden_ixs three_agent = [1%nat].
Proof. eexists _, _. split_and!; by vm_compute. Qed.

(** C4 (the code departs from it): the claim asks for a sequence without
    duplicates.  [connected_nodes] concatenates the connected sensors, the
    connected motors and every node with an input and an output, and sorts
    the result: a sensor that also has an input is listed twice.  For the
    agent with edges 0→1, 1→0, 1→2 the result is [0, 0, 1, 2]. *)
Theorem connected_nodes_repeats_sensor :
  ∃ h1, connected_nodes three_agent [feedback_cm] = (h1, inr [0; 0; 1; 2]%nat)
        ∧ ¬ NoDup [0; 0; 1; 2]%nat.
Proof.
  eexists. split; [by vm_compute|]. intros H. apply NoDup_cons_1_1 in H. set_solver.
Qed.

(** C5 (the code departs from it): the claim asks that, with
    [connected_only] false, the sum of the betweenness centralities be
    divided by the number of hidden nodes of the agent.  The function has
    no [agent] in scope: for every graph and store the call raises
    [NameError] and leaves the store as it was. *)
Theorem average_betweenness_centrality_unfiltered_raises (G : nx.DiGraph) (h : heap) :
  average_betweenness_centrality G false h = (h, inl NameError).
Proof. reflexivity. Qed.




(** C7: no classifying or counting function changes an array that was in
    the store before the call, in particular the agent's connectivity
    matrix: after [connected_nodes], [densely_connected_nodes],
    [number_of_densely_connected_nodes], [number_of_connections_by_type]
    and [fullStructuralAnalysis], whether they return or raise, the array
    at every reference is the one that was there.  The self-loops are
    cleared on copies. *)
Theorem connectivity_matrix_not_mutated (agent : Agent) (connected_only allow_self_loops : bool)
    (h : heap) (l : loc) (M : ndarray) :
  h !! l = Some M →
  (connected_nodes agent h).1 !! l = Some M
  ∧ (densely_connected_nodes (cm agent) allow_self_loops h).1 !! l = Some M
  ∧ (number_of_densely_connected_nodes (cm agent) allow_self_loops h).1 !! l = Some M
  ∧ (number_of_connections_by_type agent connected_only h).1 !! l = Some M
  ∧ (fullStructuralAnalysis agent connected_only h).1 !! l = Some M.
Proof.
  intros Hl. split_and!; (eapply preserves_lookup; [|exact Hl]).
  - apply preserves_connected_nodes.
  - apply preserves_densely_connected_nodes.
  - apply preserves_number_of_densely_connected_nodes.
  - apply preserves_number_of_connections_by_type.
  - apply preserves_fullStructuralAnalysis.
Qed.

Lemma connectivity_matrix_not_mutated_witness :
  (fullStructuralAnalysis scenario_agent true [scenario_cm]).1 !! 0%nat = Some scenario_cm.
Proof.
  apply (connectivity_matrix_not_mutated scenario_agent true false [scenario_cm] 0%nat
           scenario_cm).
  reflexivity.
Defined.




(** C9: [emptyStructuralAnalysis(3)] has the three rows 0, 1, 2, the
    thirteen columns cN, cS, cH, cM, s_m, s_h, h_h, h_m, len_LSCC, len_LWCC,
    flow_hierarchy, av_betweenness_centrality, av_degree_centrality in this
    order, NaN in every cell, and its columns are those of every report
    that [fullStructuralAnalysis] returns. *)
Theorem emptyStructuralAnalysis_schema :
  let df := emptyStructuralAnalysis 3 in
  pd.index df = [0; 1; 2]
  ∧ pd.columns df
    = ["cN"; "cS"; "cH"; "cM"; "s_m"; "s_h"; "h_h"; "h_m"; "len_LSCC"; "len_LWCC";
       "flow_hierarchy"; "av_betweenness_centrality"; "av_degree_centrality"]%string
  ∧ pd.rows df = replicate 3 (replicate 13 (Float NaN))
  ∧ ∀ agent connected_only (h h' : heap) report,
      fullStructuralAnalysis agent connected_only h = (h', inr report) →
      pd.columns report = pd.columns df.
Proof.
  split_and!; [done..|]. intros agent flag h h' report H.
  by rewrite (fullStructuralAnalysis_columns _ _ _ _ _ H).
Qed.

Lemma emptyStructuralAnalysis_schema_witness :
  ∃ h' report,
    fullStructuralAnalysis scenario_agent true [scenario_cm] = (h', inr report)
    ∧ pd.columns report = pd.columns (emptyStructuralAnalysis 3).
Proof.
  eexists _, _. split; [vm_compute; reflexivity|].
  eapply (proj2 (proj2 (proj2 emptyStructuralAnalysis_schema))
            scenario_agent true [scenario_cm]).
  vm_compute. reflexivity.
Defined.

(** C10 (the claim fails on the code): the claim has the call fail in
    [len_LSCC] and [len_LWCC], on an induced subgraph without nodes, which
    is a [ValueError].  For the agent of three nodes without any edge no
    subgraph is built: [connected_nodes] returns the array of no node,
    which is a float64 array, and indexing the matrix by it raises
    [IndexError]. *)
Lemma no_connected_nodes_raises_before_the_graph :
  (connected_nodes three_agent [zero_cm]).2 = inr []
  ∧ (fullStructuralAnalysis three_agent true [zero_cm]).2 = inl IndexError
  ∧ len_LSCC [] = inl ValueError
  ∧ ¬ (∃ h', fullStructuralAnalysis three_agent true [zero_cm] = (h', inl ValueError)).
Proof.
  split; [by vm_compute|]. split; [by vm_compute|]. split; [reflexivity|].
  intros [h' Hrun]. by vm_compute in Hrun.
Qed.

(** C10, as amended: when the connected-node sequence of an agent is
    empty, [fullStructuralAnalysis(agent, connected_only=True)] returns no
    report: it raises [IndexError] where the matrix is indexed by the empty
    array of connected nodes, before a graph is built.  [len_LSCC] and
    [len_LWCC] do raise [ValueError] on a graph without nodes, but they are
    not reached.  No placeholder record is produced on this path. *)
Theorem fullStructuralAnalysis_no_connected_nodes (agent : Agent) (h h1 : heap) :
  connected_nodes agent h = (h1, inr []) →
  (∃ h', fullStructuralAnalysis agent true h = (h', inl IndexError))
  ∧ len_LSCC [] = inl ValueError ∧ len_LWCC [] = inl ValueError.
Proof.
  intros Hc. split; [by eapply fullStructuralAnalysis_empty|]. by split.
Qed.

Lemma fullStructuralAnalysis_no_connected_nodes_witness :
  (∃ h', fullStructuralAnalysis three_agent true [zero_cm] = (h', inl IndexError))
  ∧ len_LSCC [] = inl ValueError ∧ len_LWCC [] = inl ValueError.
Proof.
  eapply (fullStructuralAnalysis_no_connected_nodes three_agent [zero_cm]).
  vm_compute. reflexivity.
Defined.

(** * Further properties of the code *)

Lemma total_pos_iff (u : list Z) :
  Forall (λ x, 0 ≤ x) u → 0 < total u ↔ ∃ j x, u !! j = Some x ∧ 0 < x.
Proof.
  induction 1 as [|x u Hx Hu IH]; simpl.
  - split; [lia|]. by intros (j & x & ? & _).
  - pose proof (total_nonneg u Hu). split.
    + intros Hpos. destruct (decide (0 < x)) as [Hx'|Hx'].
      * exists 0%nat, x. done.
      * destruct (proj1 IH ltac:(lia)) as (j & y & Hj & Hy). exists (S j), y. done.
    + intros (j & y & Hj & Hy). destruct j as [|j]; simpl in Hj.
      * simplify_eq. lia.
      * assert (0 < total u) by (apply IH; eauto). lia.
Qed.

Lemma nonneg_lookup M i row : nonneg M → M !! i = Some row → Forall (λ x, 0 ≤ x) row.
Proof. intros Hnn Hi. by eapply (Forall_lookup_1 _ _ _ _ Hnn). Qed.

Lemma entry_pos_lookup M i j :
  0 < np.entry M i j ↔ ∃ row x, M !! i = Some row ∧ row !! j = Some x ∧ 0 < x.
Proof.
  unfold np.entry. split.
  - destruct (M !! i) as [row|]; [|lia].
    destruct (row !! j) as [x|] eqn:Hj; simpl; [|lia].
    intros Hx. exists row, x. by split_and!.
  - intros (row & x & -> & Hx & ?). by rewrite Hx.
Qed.

(** With small weights, a positive row sum is an edge out of the node; a
    positive column sum is an edge into it. *)
Lemma rowsum_pos_iff n M v :
  square n M → small n M → 0 < rowsum M v ↔ ∃ t, 0 < np.entry M v t.
Proof.
  intros Hsq Hs. pose proof (small_nonneg _ _ Hs) as Hnn.
  destruct (rowsum_small n M v Hsq Hs) as [-> _]. setoid_rewrite entry_pos_lookup.
  destruct (M !! v) as [row|] eqn:Hv; simpl.
  - rewrite total_pos_iff by by eapply nonneg_lookup. split.
    + intros (j & x & ? & ?). eauto 10.
    + intros (t & row' & x & ? & ? & ?). simplify_eq. eauto.
  - split; [lia|]. by intros (t & row' & x & ? & _).
Qed.

Lemma colsum_pos_iff n M v :
  square n M → small n M → 0 < colsum M v ↔ ∃ s, 0 < np.entry M s v.
Proof.
  intros Hsq Hsm. pose proof (small_nonneg _ _ Hsm) as Hnn.
  destruct (colsum_small n M v Hsq Hsm) as [-> _]. setoid_rewrite entry_pos_lookup.
  rewrite total_pos_iff.
  - split.
    + intros (s & x & Hs & Hx). rewrite list_lookup_fmap in Hs.
      destruct (M !! s) as [row|] eqn:Hrow; simpl in Hs; [|done].
      injection Hs as <-. destruct (row !! v) as [y|] eqn:Hy; simpl in Hx; [|lia].
      eauto 10.
    + intros (s & row & x & Hrow & Hx & ?). exists s, x.
      by rewrite list_lookup_fmap, Hrow; simpl; rewrite Hx.
  - apply Forall_fmap. eapply Forall_impl; [exact Hnn|]. intros row Hrow. simpl.
    destruct (row !! v) as [x|] eqn:Hx; simpl; [|done].
    by eapply (Forall_lookup_1 _ _ _ _ Hrow).
Qed.

Lemma entry_strip M i j :
  np.entry (strip M) i j = if decide (i = j) then 0 else np.entry M i j.
Proof.
  unfold np.entry. rewrite strip_lookup.
  destruct (M !! i) as [row|] eqn:Hi; simpl; [|by case_decide].
  case_decide as Hij.
  - subst. destruct (decide (j < length row)%nat).
    + by rewrite list_lookup_insert_eq.
    + rewrite list_insert_ge by lia. by rewrite lookup_ge_None_2 by lia.
  - by rewrite list_lookup_insert_ne.
Qed.

Lemma rowsum_strip_pos_iff n M v :
  square n M → small n M →
  0 < rowsum (strip M) v ↔ ∃ t, t ≠ v ∧ 0 < np.entry M v t.
Proof.
  intros Hsq Hs.
  rewrite (rowsum_pos_iff n) by (by apply square_strip || by apply small_strip).
  setoid_rewrite entry_strip. split.
  - intros (t & Ht). case_decide; [lia|]. eauto.
  - intros (t & Hne & Ht). exists t. by rewrite decide_False.
Qed.

Lemma colsum_strip_pos_iff n M v :
  square n M → small n M →
  0 < colsum (strip M) v ↔ ∃ s, s ≠ v ∧ 0 < np.entry M s v.
Proof.
  intros Hsq Hsm.
  rewrite (colsum_pos_iff n) by (by apply square_strip || by apply small_strip).
  setoid_rewrite entry_strip. split.
  - intros (s & Hs). case_decide; [lia|]. eauto.
  - intros (s & Hne & Hs). exists s. by rewrite decide_False.
Qed.

Lemma product_pos_iff (a b : Z) : 0 ≤ a → 0 ≤ b → 0 < a * b ↔ 0 < a ∧ 0 < b.
Proof. intros. split; [nia|nia]. Qed.

Lemma entry_pos_row_lt n M i j : square n M → 0 < np.entry M i j → (i < n)%nat.
Proof.
  intros [Hlen _] (row & x & Hrow & _)%entry_pos_lookup.
  apply lookup_lt_Some in Hrow. lia.
Qed.

Lemma entry_pos_col_lt n M i j : square n M → 0 < np.entry M i j → (j < n)%nat.
Proof.
  intros [_ Hrows] (row & x & Hrow & Hx & _)%entry_pos_lookup.
  rewrite <- (Forall_lookup_1 _ _ _ _ Hrows Hrow). by eapply lookup_lt_Some.
Qed.

(** The flags of a square matrix of small weights, by edges. *)
Lemma flags_val_edges n M b v :
  square n M → small n M → flags_val M = inr b →
  b !! v = Some true ↔ (∃ t, 0 < np.entry M v t) ∧ (∃ s, 0 < np.entry M s v).
Proof.
  intros Hsq Hnn Hb. rewrite (flags_val_square n M Hsq) in Hb. injection Hb as <-.
  rewrite lookup_flags, bool_decide_eq_true.
  destruct (rowsum_small n M v Hsq Hnn) as [_ Hr].
  destruct (colsum_small n M v Hsq Hnn) as [_ Hc].
  rewrite wrap64_product by done.
  rewrite product_pos_iff by lia.
  rewrite (rowsum_pos_iff n), (colsum_pos_iff n) by done. split.
  - intros (_ & ? & ?). done.
  - intros [[t Ht] Hin]. split_and!; [|done|by eauto].
    by eapply entry_pos_row_lt.
Qed.

(** X6: on an [n] by [n] int64 matrix of small weights (every weight [w]
    has [0 <= w] and [n * w < 2^31], so that no sum and no product of two
    sums wraps around), [densely_connected_nodes] returns exactly the nodes
    with a positive edge to a node and a positive edge from a node, other
    than the node itself unless [allow_self_loops]. *)
Theorem densely_connected_nodes_edges (l : loc) (allow_self_loops : bool) (h h' : heap)
    (n : nat) (M : ndarray) (ixs : list nat) (v : nat) :
  h !! l = Some M → square n M → small n M →
  densely_connected_nodes l allow_self_loops h = (h', inr ixs) →
  v ∈ ixs ↔ (∃ t, (allow_self_loops = true ∨ t ≠ v) ∧ 0 < np.entry M v t)
            ∧ (∃ s, (allow_self_loops = true ∨ s ≠ v) ∧ 0 < np.entry M s v).
Proof.
  intros Hl Hsq Hnn. rewrite (densely_connected_nodes_run _ _ _ M Hl).
  intros Hrun. apply pair_equal_spec in Hrun as [_ Hrun].
  destruct (dense_val M allow_self_loops).2 as [e|b] eqn:Hb; [done|].
  injection Hrun as <-. rewrite elem_of_nonzero.
  destruct allow_self_loops.
  - unfold dense_val in Hb. cbn [snd] in Hb.
    rewrite (flags_val_edges n M b v Hsq Hnn Hb). split.
    + intros [[t Ht] [s Hs]]. split; [exists t|exists s]; auto.
    + intros [(t & _ & Ht) (s & _ & Hs)]. split; eauto.
  - apply dense_val_false_inr in Hb as (_ & _ & Hb).
    rewrite (flags_val_edges n (strip M) b v (square_strip _ _ Hsq) (small_strip _ _ Hnn) Hb).
    setoid_rewrite entry_strip. split.
    + intros [[t Ht] [s Hs]]. repeat case_decide; try lia. split; eauto.
    + intros [(t & [?|Hne] & Ht) (s & [?|Hne'] & Hs)]; try done.
      split; [exists t|exists s]; by rewrite decide_False.
Qed.

Lemma densely_connected_nodes_edges_witness :
  (1%nat ∈ [1; 2]%nat ↔
     (∃ t, (false = true ∨ t ≠ 1%nat) ∧ 0 < np.entry scenario_cm 1 t)
     ∧ (∃ s, (false = true ∨ s ≠ 1%nat) ∧ 0 < np.entry scenario_cm s 1)).
Proof.
  apply (densely_connected_nodes_edges 0 false [scenario_cm] [scenario_cm; scenario_cm]
           4 scenario_cm [1; 2]%nat 1).
  - reflexivity.
  - split; [reflexivity|repeat constructor].
  - repeat constructor; lia.
  - vm_compute. reflexivity.
Defined.

Lemma sumZ_zeros (u : list Z) : Forall (λ x, x = 0) u → np.sumZ u = 0.
Proof.
  intros Hu. assert (total u = 0) as Ht.
  { induction Hu as [|x u -> _ IH]; simpl; [done|]. by rewrite IH. }
  unfold np.sumZ. fold (total u). by rewrite Ht.
Qed.

Lemma rowsum_pos_lt n M v : square n M → 0 < rowsum M v → (v < n)%nat.
Proof.
  intros [Hlen _]. unfold rowsum. destruct (M !! v) as [row|] eqn:Hv; simpl.
  - intros _. apply lookup_lt_Some in Hv. lia.
  - intros Hpos. by vm_compute in Hpos.
Qed.

Lemma colsum_pos_lt n M v : square n M → 0 < colsum M v → (v < n)%nat.
Proof.
  intros [_ Hrows] Hpos. destruct (decide (v < n)%nat) as [|Hge]; [done|].
  exfalso. unfold colsum in Hpos. rewrite sumZ_zeros in Hpos; [lia|].
  apply Forall_fmap. eapply Forall_impl; [exact Hrows|]. intros row Hrow.
  simpl in *. by rewrite lookup_ge_None_2 by lia.
Qed.

(** Every index that [connected_nodes] returns for a square matrix is a
    node of the matrix. *)
Lemma connected_val_in_range n M sensors motors c :
  square n M → (connected_val M sensors motors).2 = inr c →
  Forall (λ v, v < n)%nat c.
Proof.
  intros Hsq Hc. apply Forall_forall. intros v Hv.
  pose proof (square_strip n M Hsq) as Hsq'.
  apply (elem_of_connected n M _ _ c v Hsq Hc) in Hv as [[_ Hv]|[[_ Hv]|[Hv _]]];
    [by eapply rowsum_pos_lt|by eapply colsum_pos_lt|done].
Qed.

(** X7: on an [n] by [n] int64 matrix of small weights (every weight [w]
    has [0 <= w] and [n * w < 2^31]), [connected_nodes] returns the sensors
    with a positive edge to another node, the motors with a positive edge
    from another node, and the nodes with both, and every index it returns
    is a node of the matrix. *)
Theorem connected_nodes_edges (agent : Agent) (h h' : heap) (n : nat) (M : ndarray)
    (c : list nat) :
  h !! cm agent = Some M → square n M → small n M →
  connected_nodes agent h = (h', inr c) →
  Forall (λ v, v < n)%nat c
  ∧ ∀ v, v ∈ c ↔
      let output := ∃ t, t ≠ v ∧ 0 < np.entry M v t in
      let input := ∃ s, s ≠ v ∧ 0 < np.entry M s v in
      (v ∈ sensor_ixs agent ∧ output) ∨ (v ∈ motor_ixs agent ∧ input)
      ∨ (output ∧ input).
Proof.
  intros Hl Hsq Hnn. rewrite (connected_nodes_run _ _ M Hl). intros Hc.
  apply pair_equal_spec in Hc as [_ Hc]. split; [by eapply connected_val_in_range|].
  intros v. cbv zeta. rewrite (elem_of_connected n M _ _ c v Hsq Hc).
  destruct (rowsum_small n _ v (square_strip _ _ Hsq) (small_strip _ _ Hnn)) as [_ ?].
  destruct (colsum_small n _ v (square_strip _ _ Hsq) (small_strip _ _ Hnn)) as [_ ?].
  rewrite wrap64_product by done.
  rewrite product_pos_iff by lia.
  rewrite <- (rowsum_strip_pos_iff n), <- (colsum_strip_pos_iff n) by done.
  split.
  - intros [?|[?|(_ & ? & ?)]]; auto.
  - intros [?|[?|[? ?]]]; auto. right; right. split; [|done].
    by eapply (rowsum_pos_lt n (strip M)); [apply square_strip|].
Qed.

Lemma connected_nodes_edges_witness :
  Forall (λ v, v < 4)%nat [0; 1; 2; 3]%nat
  ∧ ∀ v, v ∈ [0; 1; 2; 3]%nat ↔
      let output := ∃ t, t ≠ v ∧ 0 < np.entry scenario_cm v t in
      let input := ∃ s, s ≠ v ∧ 0 < np.entry scenario_cm s v in
      (v ∈ sensor_ixs scenario_agent ∧ output) ∨ (v ∈ motor_ixs scenario_agent ∧ input)
      ∨ (output ∧ input).
Proof.
  apply (connected_nodes_edges scenario_agent [scenario_cm]
           [scenario_cm; strip scenario_cm; strip scenario_cm] 4 scenario_cm).
  - reflexivity.
  - split; [reflexivity|repeat constructor].
  - repeat constructor; lia.
  - vm_compute. reflexivity.
Defined.

Lemma length_filter_impl {A : Type} (P Q : A → Prop) `{!∀ x, Decision (P x)}
    `{!∀ x, Decision (Q x)} (l : list A) :
  (∀ x, P x → Q x) → (length (filter P l) ≤ length (filter Q l))%nat.
Proof.
  intros HPQ. induction l as [|x l IH]; [done|]. rewrite !filter_cons.
  destruct (decide (P x)) as [HP|HP], (decide (Q x)) as [HQ|HQ]; simpl; try lia.
  by destruct HQ; apply HPQ.
Qed.

Lemma mle_strip_self M : nonneg M → mle (strip M) M.
Proof.
  intros Hnn. apply Forall2_lookup. intros i. rewrite strip_lookup.
  destruct (M !! i) as [row|] eqn:Hi; simpl; constructor.
  pose proof (nonneg_lookup _ _ _ Hnn Hi) as Hrow.
  apply Forall2_lookup. intros j. destruct (decide (i = j)) as [<-|Hne].
  - destruct (row !! i) as [x|] eqn:Hx.
    + rewrite list_lookup_insert_eq by by eapply lookup_lt_Some. constructor.
      by eapply (Forall_lookup_1 _ _ _ _ Hrow).
    + rewrite list_insert_ge by by apply lookup_ge_None. rewrite Hx. constructor.
  - rewrite list_lookup_insert_ne by done. destruct (row !! j); by constructor.
Qed.

Lemma strip_no_self_loops n M : square n M → (∀ i, np.entry M i i = 0) → strip M = M.
Proof.
  intros Hsq Hdiag. apply list_eq. intros i. apply strip_row_id; [done|].
  intros row Hrow. by eapply square_lookup_length.
Qed.

(** X8: on an [n] by [n] int64 matrix of small weights (every weight [w]
    has [0 <= w] and [n * w < 2^31]), the count of densely connected nodes
    with [allow_self_loops] false is at most the count with
    [allow_self_loops] true; on a square matrix without self-loops,
    whatever its weights, the two are equal. *)
Theorem number_of_densely_connected_nodes_allow (l : loc) (h h1 h2 : heap) (n : nat)
    (M : ndarray) (c0 c1 : nat) :
  h !! l = Some M → square n M →
  number_of_densely_connected_nodes l false h = (h1, inr c0) →
  number_of_densely_connected_nodes l true h = (h2, inr c1) →
  (small n M → (c0 ≤ c1)%nat) ∧ ((∀ i, np.entry M i i = 0) → c0 = c1).
Proof.
  intros Hl Hsq. rewrite !(number_of_densely_connected_nodes_run _ _ _ M Hl).
  rewrite dense_val_false_ok by by rewrite (strip_loop_square n M Hsq).
  unfold dense_val. cbn [fst snd].
  rewrite (flags_val_square n (strip M)), (flags_val_square n M)
    by (done || by apply square_strip).
  intros [= _ <-] [= _ <-]. rewrite !count_true_map. split.
  - intros Hs. pose proof (small_nonneg _ _ Hs) as Hnn.
    apply length_filter_impl. intros v. rewrite !bool_decide_eq_true.
    pose proof (rowsum_mono n _ _ v (square_strip _ _ Hsq) (nonneg_strip _ Hnn)
                  (mle_strip_self M Hnn) Hs).
    pose proof (colsum_mono n _ _ v (square_strip _ _ Hsq) (nonneg_strip _ Hnn)
                  (mle_strip_self M Hnn) Hs).
    destruct (rowsum_small n _ v (square_strip _ _ Hsq) (small_strip _ _ Hs)) as [_ ?].
    destruct (colsum_small n _ v (square_strip _ _ Hsq) (small_strip _ _ Hs)) as [_ ?].
    destruct (rowsum_small n _ v Hsq Hs) as [_ ?].
    destruct (colsum_small n _ v Hsq Hs) as [_ ?].
    rewrite !wrap64_product by done. nia.
  - intros Hdiag. by rewrite (strip_no_self_loops n M Hsq Hdiag).
Qed.

Lemma number_of_densely_connected_nodes_allow_witness :
  (number_of_densely_connected_nodes 0 false [self_loop_cm]).2 = inr 0%nat
  ∧ (number_of_densely_connected_nodes 0 true [self_loop_cm]).2 = inr 1%nat
  ∧ (0 ≤ 1)%nat.
Proof.
  split; [vm_compute; reflexivity|]. split; [vm_compute; reflexivity|].
  apply (proj1 (number_of_densely_connected_nodes_allow 0 [self_loop_cm]
           [self_loop_cm; strip self_loop_cm] [self_loop_cm; self_loop_cm] 3 self_loop_cm
           0 1 eq_refl ltac:(split; [reflexivity|repeat constructor])
           ltac:(vm_compute; reflexivity) ltac:(vm_compute; reflexivity))).
  repeat constructor; lia.
Defined.

Lemma count_true_le (b : list bool) : (np.count_true b ≤ length b)%nat.
Proof. unfold np.count_true. apply length_filter. Qed.

Lemma sum_list_with_bound {A : Type} (f : A → nat) (k : nat) (l : list A) :
  (∀ x, f x ≤ k)%nat → (sum_list_with f l ≤ length l * k)%nat.
Proof.
  intros Hf. induction l as [|x l IH]; simpl; [done|]. pose proof (Hf x). lia.
Qed.

Lemma length_sum_axis0_take_cols (M : ndarray) (ixs : list nat) :
  (length (np.sum_axis0 (map (λ row, map (λ j, default 0%Z (row !! j)) ixs) M))
   ≤ length ixs)%nat.
Proof.
  unfold np.sum_axis0. rewrite length_map, length_seq.
  destruct M as [|row M]; simpl; [lia|]. by rewrite length_map.
Qed.

(** X9: the counts are bounded by the sizes of their arguments:
    [number_of_connections] by [len(a_ixs) * len(b_ixs)],
    [number_of_connected_sensors] and [number_of_connected_motors] by the
    length of the index list, and, on a square matrix,
    [number_of_densely_connected_nodes] by the number of nodes. *)
Theorem counts_bounded (l : loc) (h : heap) :
  (∀ a_ixs b_ixs h' c, number_of_connections l a_ixs b_ixs h = (h', inr c) →
     (c ≤ length a_ixs * length b_ixs)%nat)
  ∧ (∀ ixs h' c, number_of_connected_sensors l ixs h = (h', inr c) →
       (c ≤ length ixs)%nat)
  ∧ (∀ ixs h' c, number_of_connected_motors l ixs h = (h', inr c) →
       (c ≤ length ixs)%nat)
  ∧ (∀ n M allow h' c, h !! l = Some M → square n M →
       number_of_densely_connected_nodes l allow h = (h', inr c) → (c ≤ n)%nat).
Proof.
  destruct (h !! l) as [M|] eqn:Hl.
  - split_and!.
    + intros a b h' c. rewrite (number_of_connections_run _ _ _ _ M Hl).
      intros [_ Hc]%pair_equal_spec. apply connections_val_inr in Hc as ->.
      apply sum_list_with_bound. intros i.
      etrans; [apply (sum_list_with_bound _ 1)|lia].
      intros j. unfold positive. case_bool_decide; lia.
    + intros ixs h' c. rewrite (number_of_connected_sensors_run _ _ _ M Hl).
      intros [_ Hc]%pair_equal_spec. unfold sensors_val in Hc.
      destruct (np.take_rows M ixs) as [e|sub] eqn:Hsub; [done|]. injection Hc as <-.
      apply take_rows_inr in Hsub as ->.
      etrans; [apply count_true_le|]. unfold np.gt0, np.sum_axis1.
      by rewrite !length_map.
    + intros ixs h' c. rewrite (number_of_connected_motors_run _ _ _ M Hl).
      intros [_ Hc]%pair_equal_spec. unfold motors_val in Hc.
      destruct (np.take_cols M ixs) as [e|sub] eqn:Hsub; [done|]. injection Hc as <-.
      apply take_cols_inr in Hsub as [-> _].
      etrans; [apply count_true_le|]. unfold np.gt0. rewrite length_map.
      apply length_sum_axis0_take_cols.
    + intros n M' allow h' c [= <-] Hsq.
      rewrite (number_of_densely_connected_nodes_run _ _ _ M Hl).
      intros [_ Hc]%pair_equal_spec.
      destruct (dense_val M allow).2 as [e|b] eqn:Hb; [done|]. injection Hc as <-.
      etrans; [apply count_true_le|].
      destruct allow.
      * unfold dense_val in Hb. cbn [snd] in Hb.
        rewrite (flags_val_square n M Hsq) in Hb. injection Hb as <-.
        by rewrite length_map, length_seq.
      * apply dense_val_false_inr in Hb as (_ & _ & Hb).
        rewrite (flags_val_square n) in Hb by by apply square_strip.
        injection Hb as <-. by rewrite length_map, length_seq.
  - split_and!.
    + intros a b h' c. unfold number_of_connections. py_unfold. by rewrite Hl.
    + intros ixs h' c. unfold number_of_connected_sensors. py_unfold. by rewrite Hl.
    + intros ixs h' c. unfold number_of_connected_motors. py_unfold. by rewrite Hl.
    + intros n M allow h' c. done.
Qed.

Lemma counts_bounded_witness :
  (number_of_connections 0 [1; 2]%nat [1; 2]%nat [scenario_cm]).2 = inr 2%nat
  ∧ (2 ≤ 2 * 2)%nat.
Proof.
  split; [vm_compute; reflexivity|].
  apply (proj1 (counts_bounded 0 [scenario_cm]) [1; 2]%nat [1; 2]%nat [scenario_cm]).
  vm_compute. reflexivity.
Defined.

Lemma take_ix_inr M a b r :
  np.take_ix M a b = inr r → r = map (λ i, map (λ j, np.entry M i j) b) a.
Proof. unfold np.take_ix. destruct (_ || _); [|done]. by intros [= <-]. Qed.

Lemma take_ix_app_l M a1 a2 b r1 r2 :
  np.take_ix M a1 b = inr r1 → np.take_ix M a2 b = inr r2 →
  np.take_ix M (a1 ++ a2) b = inr (r1 ++ r2).
Proof.
  intros H1 H2.
  pose proof (take_ix_inr _ _ _ _ H1) as ->. pose proof (take_ix_inr _ _ _ _ H2) as ->.
  rewrite <- map_app.
  destruct a1 as [|x a1]; [exact H2|]. destruct a2 as [|y a2]; [by rewrite app_nil_r|].
  revert H1 H2. unfold np.take_ix. destruct b as [|z b].
  - intros _ _. by rewrite bool_decide_eq_true_2 by by right.
  - rewrite !bool_decide_eq_false_2 by (by intros [?|?]).
    rewrite !orb_false_l, forallb_app.
    destruct (forallb _ (x :: a1)); [|done]. destruct (forallb _ (y :: a2)); [|done].
    by destruct (forallb _ (z :: b)).
Qed.

Lemma count_positive_app (r1 r2 : ndarray) :
  np.count_positive (r1 ++ r2) = (np.count_positive r1 + np.count_positive r2)%nat.
Proof. unfold np.count_positive. by rewrite map_app, concat_app, count_true_app. Qed.

(** X10: [number_of_connections] is additive in its row index list: when the
    calls for [a1] and for [a2] return [c1] and [c2], the call for
    [a1 + a2] returns [c1 + c2], and the store is left as it was. *)
Theorem number_of_connections_additive (l : loc) (h h1 h2 : heap)
    (a1 a2 b_ixs : list nat) (c1 c2 : nat) :
  number_of_connections l a1 b_ixs h = (h1, inr c1) →
  number_of_connections l a2 b_ixs h = (h2, inr c2) →
  number_of_connections l (a1 ++ a2) b_ixs h = (h, inr (c1 + c2)%nat).
Proof.
  destruct (h !! l) as [M|] eqn:Hl.
  - rewrite !(number_of_connections_run _ _ _ _ M Hl). unfold connections_val.
    intros [_ H1]%pair_equal_spec [_ H2]%pair_equal_spec.
    destruct (np.take_ix M a1 b_ixs) as [e|r1] eqn:Hr1; [done|].
    destruct (np.take_ix M a2 b_ixs) as [e|r2] eqn:Hr2; [done|].
    rewrite (take_ix_app_l _ _ _ _ _ _ Hr1 Hr2), count_positive_app.
    by simplify_eq.
  - unfold number_of_connections. py_unfold. by rewrite Hl.
Qed.

Lemma number_of_connections_additive_witness :
  number_of_connections 0 ([1] ++ [2])%nat [1; 2]%nat [scenario_cm]
  = ([scenario_cm], inr (1 + 1)%nat).
Proof.
  apply (number_of_connections_additive 0 [scenario_cm] [scenario_cm] [scenario_cm]).
  - vm_compute. reflexivity.
  - vm_compute. reflexivity.
Defined.

Lemma mle_refl M : mle M M.
Proof.
  apply Forall2_lookup. intros i. destruct (M !! i) as [row|]; constructor.
  apply Forall2_lookup. intros j. destruct (row !! j); by constructor.
Qed.

(** X11: for a square matrix with [n_nodes] nodes, each count of
    [number_of_connections_by_type] restricted to the connected nodes is at
    most the count over all nodes. *)
Theorem connected_only_counts_le (agent : Agent) (h h1 h2 : heap) (M : ndarray)
    (df df' : pd.DataFrame) (col : string) (x x' : Z) :
  h !! cm agent = Some M → square (n_nodes agent) M →
  number_of_connections_by_type agent true h = (h1, inr df) →
  number_of_connections_by_type agent false h = (h2, inr df') →
  pd.column df col = Some [Int x] → pd.column df' col = Some [Int x'] →
  x ≤ x'.
Proof.
  intros Hl Hsq Hdf Hdf'.
  rewrite (number_of_connections_by_type_run _ _ _ M Hl) in Hdf.
  rewrite (number_of_connections_by_type_run _ _ _ M Hl) in Hdf'.
  cbv zeta in Hdf. apply pair_equal_spec in Hdf as [_ Hdf].
  apply pair_equal_spec in Hdf' as [_ Hdf'].
  destruct (connected_val M _ _).2 as [e|c] eqn:Hc; [done|].
  eapply (connections_by_type_val_mono M M); [apply mle_refl| |done..].
  intros v Hv. apply elem_of_list_to_set in Hv. apply elem_of_list_to_set.
  apply elem_of_seq.
  pose proof (proj1 (Forall_forall _ _) (connected_val_in_range _ _ _ _ _ Hsq Hc) v Hv)
    as Hlt.
  simpl in Hlt. lia.
Qed.

Lemma connected_only_counts_le_witness :
  ∃ df df',
    (number_of_connections_by_type three_agent true
       [[[0; 1; 0]; [0; 0; 0]; [0; 0; 0]]]).2 = inr df
    ∧ (number_of_connections_by_type three_agent false
         [[[0; 1; 0]; [0; 0; 0]; [0; 0; 0]]]).2 = inr df'
    ∧ pd.column df "s_h" = Some [Int 0] ∧ pd.column df' "s_h" = Some [Int 1]
    ∧ 0 ≤ 1.
Proof.
  eexists _, _. split; [vm_compute; reflexivity|]. split; [vm_compute; reflexivity|].
  split; [reflexivity|]. split; [reflexivity|].
  eapply (connected_only_counts_le three_agent [[[0; 1; 0]; [0; 0; 0]; [0; 0; 0]]]
            _ _ [[0; 1; 0]; [0; 0; 0]; [0; 0; 0]] _ _ "s_h"%string 0 1).
  - reflexivity.
  - split; [reflexivity|repeat constructor].
  - vm_compute. reflexivity.
  - vm_compute. reflexivity.
  - reflexivity.
  - reflexivity.
Defined.

Lemma bind_raises {A B : Type} (m : py A) (f : A → py B) (h : heap) :
  (∀ a h1, ∃ h' e, f a h1 = (h', inl e)) → ∃ h' e, (m ≫= f) h = (h', inl e).
Proof.
  intros Hf. unfold mbind, py_bind. destruct (m h) as [h1 [e|a]]; [by eauto|].
  apply Hf.
Qed.

(** X12: [fullStructuralAnalysis(agent, connected_only=False)] returns no
    report, whatever the agent: when every earlier step returns, the call
    of [average_betweenness_centrality(G, False)] raises [NameError]. *)
Theorem fullStructuralAnalysis_unfiltered_raises (agent : Agent) (h : heap) :
  ∃ h' e, fullStructuralAnalysis agent false h = (h', inl e).
Proof.
  unfold fullStructuralAnalysis.
  do 7 (apply bind_raises; intros ? ?). eexists _, _. reflexivity.
Qed.

(** X13: the functions that only read the matrix leave the store as it
    was: [number_of_connected_sensors], [number_of_connected_motors] and
    [number_of_connections] allocate nothing and write nothing. *)
Theorem counting_reads_only (l : loc) (h : heap) (ixs a_ixs b_ixs : list nat) :
  (number_of_connected_sensors l ixs h).1 = h
  ∧ (number_of_connected_motors l ixs h).1 = h
  ∧ (number_of_connections l a_ixs b_ixs h).1 = h.
Proof.
  destruct (h !! l) as [M|] eqn:Hl.
  - rewrite (number_of_connected_sensors_run _ _ _ M Hl),
      (number_of_connected_motors_run _ _ _ M Hl),
      (number_of_connections_run _ _ _ _ M Hl). done.
  - unfold number_of_connected_sensors, number_of_connected_motors,
      number_of_connections. py_unfold. by rewrite Hl.
Qed.

(** X14: [number_of_connected_nodes_by_type] and
    [average_betweenness_centrality] change no array that was in the store
    before the call, whether they return or raise. *)
Theorem more_functions_do_not_mutate (agent : Agent) (G : nx.DiGraph)
    (connected_only : bool) (h : heap) (l : loc) (M : ndarray) :
  h !! l = Some M →
  (number_of_connected_nodes_by_type agent h).1 !! l = Some M
  ∧ (average_betweenness_centrality G connected_only h).1 !! l = Some M.
Proof.
  intros Hl. split; (eapply preserves_lookup; [|exact Hl]).
  - apply preserves_number_of_connected_nodes_by_type.
  - apply preserves_average_betweenness_centrality.
Qed.

Lemma more_functions_do_not_mutate_witness :
  (number_of_connected_nodes_by_type scenario_agent [scenario_cm]).1 !! 0%nat
  = Some scenario_cm.
Proof.
  apply (more_functions_do_not_mutate scenario_agent scenario_cm true [scenario_cm]
           0%nat scenario_cm).
  reflexivity.
Defined.

(** ** Components *)

Lemma reach_seen e ns fuel seen v : v ∈ seen → v ∈ nx.reach e ns fuel seen.
Proof.
  revert seen. induction fuel as [|fuel IH]; intros seen Hv; simpl; [done|].
  apply IH. apply list_elem_of_union. by left.
Qed.

Lemma reachable_refl e ns v : nx.reachable e ns v v = true.
Proof.
  unfold nx.reachable. apply bool_decide_eq_true, reach_seen. by left.
Qed.

Section components.
Context (same : nat → nat → bool) (ns : list nat).

Local Abbreviation step := (λ (acc : list (list nat)) (v : nat),
  if existsb (λ c, bool_decide (v ∈ c)) acc then acc
  else acc ++ [filter (λ u, same v u = true) ns]).

Lemma components_foldl_elem (l : list nat) (acc : list (list nat)) (c : list nat) :
  c ∈ foldl step acc l → c ∈ acc ∨ ∃ v, v ∈ l ∧ c = filter (λ u, same v u = true) ns.
Proof.
  revert acc. induction l as [|v l IH]; intros acc; simpl; [by left|].
  intros Hc. apply IH in Hc as [Hc|(w & Hw & ->)].
  - destruct (existsb _ acc); [by left|].
    apply elem_of_app in Hc as [Hc|Hc]; [by left|].
    apply list_elem_of_singleton in Hc as ->. right. exists v. split; [by left|done].
  - right. exists w. split; [by right|done].
Qed.

Lemma components_foldl_length (l : list nat) (acc : list (list nat)) :
  (length acc ≤ length (foldl step acc l))%nat.
Proof.
  revert acc. induction l as [|v l IH]; intros acc; simpl; [done|].
  etrans; [|apply IH]. destruct (existsb _ acc); [done|].
  rewrite length_app. simpl. lia.
Qed.

Lemma components_elem (c : list nat) :
  c ∈ nx.components same ns → ∃ v, v ∈ ns ∧ c = filter (λ u, same v u = true) ns.
Proof.
  unfold nx.components. intros Hc.
  apply (components_foldl_elem ns []) in Hc as [Hc|Hc]; [|done].
  by apply not_elem_of_nil in Hc.
Qed.

Lemma components_nonempty : ns ≠ [] → nx.components same ns ≠ [].
Proof.
  unfold nx.components. intros Hns Hnil.
  assert (∀ l acc, acc ≠ [] → foldl step acc l ≠ []) as Hgrow.
  { intros l acc Hacc Hnil'. pose proof (components_foldl_length l acc) as Hlen.
    rewrite Hnil' in Hlen. destruct acc; [done|]. simpl in Hlen. lia. }
  destruct ns as [|v l] eqn:Ens; [done|]. simpl in Hnil.
  by apply Hgrow in Hnil.
Qed.
End components.

Lemma max_by_len_elem (cs : list (list nat)) (c : list nat) :
  max_by_len cs = inr c → c ∈ cs.
Proof.
  destruct cs as [|c0 cs]; [done|]. simpl. intros [= <-].
  assert (∀ best, foldl (λ best c', if decide (length best < length c')%nat
                                    then c' else best) best cs ∈ best :: cs) as Hgen.
  { induction cs as [|c1 cs IH]; intros best; simpl; [by left|].
    specialize (IH (if decide (length best < length c1)%nat then c1 else best)).
    apply elem_of_cons in IH as [->|IH].
    - case_decide; [right; by left|by left].
    - right. by right. }
  apply Hgen.
Qed.

Lemma max_by_len_inr (cs : list (list nat)) : cs ≠ [] → ∃ c, max_by_len cs = inr c.
Proof. destruct cs; [done|]. intros _. by eexists. Qed.

Lemma nodes_nonempty (G : nx.DiGraph) : G ≠ [] → nx.nodes G ≠ [].
Proof. destruct G; [done|]. done. Qed.

(** A component of a graph: nodes of the graph, each once, and at least
    one when the relation holds between a node and itself. *)
Lemma component_facts (G : nx.DiGraph) (same : nat → nat → bool) (c : list nat) :
  (∀ v, same v v = true) → c ∈ nx.components same (nx.nodes G) →
  (1 ≤ length c ≤ length G)%nat ∧ NoDup c ∧ Forall (λ v, v < length G)%nat c.
Proof.
  intros Hrefl (v & Hv & ->)%components_elem. split_and!.
  - assert (v ∈ filter (λ u, same v u = true) (nx.nodes G)) as Hin
      by (by apply list_elem_of_filter).
    destruct (filter _ _) as [|x l] eqn:Hf; [by apply not_elem_of_nil in Hin|].
    simpl. lia.
  - etrans; [apply length_filter|]. unfold nx.nodes. by rewrite length_seq.
  - apply NoDup_filter, NoDup_seq.
  - apply Forall_forall. intros u [_ Hu]%list_elem_of_filter.
    apply elem_of_seq in Hu. lia.
Qed.

(** X15: on the graph without nodes [LSCC], [len_LSCC] and [len_LWCC] raise
    [ValueError]; on every other graph they return, the two sizes are
    between 1 and the number of nodes, [LSCC] is [None] exactly when
    [len_LSCC] is 1, and otherwise it is a set of [len_LSCC] nodes of the
    graph. *)
Theorem largest_components (G : nx.DiGraph) :
  (G = [] → LSCC G = inl ValueError ∧ len_LSCC G = inl ValueError
            ∧ len_LWCC G = inl ValueError)
  ∧ (G ≠ [] → ∃ (k w : nat) (r : option (gset nat)),
       len_LSCC G = inr k ∧ len_LWCC G = inr w ∧ LSCC G = inr r
       ∧ (1 ≤ k ≤ length G)%nat ∧ (1 ≤ w ≤ length G)%nat
       ∧ (r = None ↔ k = 1%nat)
       ∧ ∀ c, r = Some c → size c = k ∧ ∀ v, v ∈ c → (v < length G)%nat).
Proof.
  split; [by intros ->|]. intros HG.
  pose proof (nodes_nonempty G HG) as Hns.
  destruct (max_by_len_inr (nx.strongly_connected_components G)) as [c Hc];
    [by apply components_nonempty|].
  destruct (max_by_len_inr (nx.weakly_connected_components G)) as [d Hd];
    [by apply components_nonempty|].
  pose proof (max_by_len_elem _ _ Hc) as Hcin.
  unfold nx.strongly_connected_components in Hcin. cbv zeta in Hcin.
  apply component_facts in Hcin as (Hlen & Hnd & Hin);
    [|intros v; by rewrite reachable_refl].
  pose proof (max_by_len_elem _ _ Hd) as Hdin.
  unfold nx.weakly_connected_components in Hdin. cbv zeta in Hdin.
  apply component_facts in Hdin as (Hlen' & _ & _);
    [|intros v; apply reachable_refl].
  unfold len_LSCC, len_LWCC, LSCC. rewrite Hc, Hd. py_unfold.
  case_decide as Hlt.
  - exists (length c), (length d), None.
    split_and!; try done; try lia. split; [intros _; lia|done].
  - exists (length c), (length d), (Some (list_to_set c)).
    split_and!; try done; try lia.
    + split; [done|intros ?; lia].
    + intros s [= <-]. split; [by apply size_list_to_set|].
      intros v Hv%elem_of_list_to_set. by apply (proj1 (Forall_forall _ _) Hin).
Qed.

Lemma largest_components_witness :
  ∃ (k w : nat) (r : option (gset nat)),
    len_LSCC scenario_cm = inr k ∧ len_LWCC scenario_cm = inr w
    ∧ LSCC scenario_cm = inr r
    ∧ (1 ≤ k ≤ length scenario_cm)%nat ∧ (1 ≤ w ≤ length scenario_cm)%nat
    ∧ (r = None ↔ k = 1%nat)
    ∧ ∀ c, r = Some c → size c = k ∧ ∀ v, v ∈ c → (v < length scenario_cm)%nat.
Proof. apply (proj2 (largest_components scenario_cm)). discriminate. Defined.

(** ** Degrees *)

Lemma length_filter_sum {A : Type} (f : A → bool) (l : list A) :
  length (filter (λ x, f x = true) l) = sum_list_with (λ x, if f x then 1 else 0)%nat l.
Proof.
  induction l as [|x l IH]; [done|]. rewrite filter_cons. simpl.
  destruct (decide (f x = true)) as [Hf|Hf]; simpl; rewrite IH.
  - by rewrite Hf.
  - by destruct (f x).
Qed.

Lemma sum_list_with_add {A : Type} (f g : A → nat) (l : list A) :
  sum_list_with (λ x, f x + g x)%nat l = (sum_list_with f l + sum_list_with g l)%nat.
Proof. induction l as [|x l IH]; simpl; [done|]. rewrite IH. lia. Qed.

Lemma sum_list_with_swap {A B : Type} (f : A → B → nat) (l : list A) (k : list B) :
  sum_list_with (λ x, sum_list_with (λ y, f x y) k) l
  = sum_list_with (λ y, sum_list_with (λ x, f x y) l) k.
Proof.
  induction l as [|x l IH]; simpl.
  - by rewrite sum_list_with_zero.
  - by rewrite IH, sum_list_with_add.
Qed.

Lemma sum_list_with_ext {A : Type} (f g : A → nat) (l : list A) :
  (∀ x, f x = g x) → sum_list_with f l = sum_list_with g l.
Proof. intros Hfg. induction l as [|x l IH]; simpl; [done|]. by rewrite Hfg, IH. Qed.

Lemma length_filter_pairs (e : nat → nat → bool) (l k : list nat) :
  length (filter (λ p, e p.1 p.2 = true) (u ← l; v ← k; [(u, v)]))
  = sum_list_with (λ u, sum_list_with (λ v, if e u v then 1 else 0)%nat k) l.
Proof.
  induction l as [|u l IH]; [done|].
  rewrite bind_cons, filter_app, length_app, IH. cbn [sum_list_with]. f_equal.
  clear IH. induction k as [|v k IHk]; [done|].
  rewrite bind_cons, filter_app, length_app, IHk. cbn [sum_list_with]. f_equal.
  rewrite filter_cons, filter_nil. simpl.
  destruct (decide (e u v = true)) as [He|He]; simpl.
  - by rewrite He.
  - by destruct (e u v).
Qed.

Lemma size_sum (G : nx.DiGraph) :
  nx.size G
  = sum_list_with (λ u, sum_list_with (λ v, if nx.has_edge G u v then 1 else 0)%nat
                                      (nx.nodes G)) (nx.nodes G).
Proof. apply (length_filter_pairs (nx.has_edge G)). Qed.

(** Every edge is counted at its two ends. *)
Lemma sum_degree (G : nx.DiGraph) :
  sum_list_with (nx.degree G) (nx.nodes G) = (2 * nx.size G)%nat.
Proof.
  unfold nx.degree.
  rewrite (sum_list_with_ext _ (λ v,
    sum_list_with (λ u, if nx.has_edge G u v then 1 else 0) (nx.nodes G)
    + sum_list_with (λ u, if nx.has_edge G v u then 1 else 0) (nx.nodes G))%nat).
  - rewrite sum_list_with_add, sum_list_with_swap, <- size_sum. lia.
  - intros v. by rewrite !length_filter_sum.
Qed.

Lemma length_nodes (G : nx.DiGraph) : length (nx.nodes G) = length G.
Proof. apply length_seq. Qed.

Lemma sumQ_map_div (a : nat → nat) (d : Q) (l : list nat) :
  (nx.sumQ (map (λ v, inject_Z (Z.of_nat (a v)) / d) l)
   == inject_Z (Z.of_nat (sum_list_with a l)) / d)%Q.
Proof.
  induction l as [|v l IH]; simpl.
  - unfold Qdiv. by rewrite Qmult_0_l.
  - rewrite IH, Nat2Z.inj_add, inject_Z_plus. unfold Qdiv. by rewrite Qmult_plus_distr_l.
Qed.

(** X16: [average_degree_centrality] raises [ZeroDivisionError] on the graph
    without nodes, is 1 on a graph of one node, and on a graph of
    [n >= 2] nodes it is twice the number of edges over [n (n - 1)]. *)
Theorem average_degree_centrality_edges (G : nx.DiGraph) (connected_only : bool) :
  (G = [] → average_degree_centrality G connected_only = inl ZeroDivisionError)
  ∧ (length G = 1%nat → average_degree_centrality G connected_only = inr (Fin 1))
  ∧ ((2 ≤ length G)%nat → ∃ q,
       average_degree_centrality G connected_only = inr (Fin q)
       ∧ (q == inject_Z (2 * Z.of_nat (nx.size G))
               / inject_Z (Z.of_nat (length G) * Z.of_nat (length G - 1)))%Q).
Proof.
  split_and!.
  - by intros ->.
  - intros Hlen. destruct G as [|row [|row' G]]; try done.
  - intros Hlen. unfold average_degree_centrality, nx.degree_centrality.
    destruct (decide (length G ≤ 1)%nat) as [|_]; [lia|].
    unfold py_truediv. rewrite length_map, length_nodes.
    destruct (decide (Z.of_nat (length G) = 0)) as [|_]; [lia|].
    eexists. split; [reflexivity|].
    rewrite Qred_correct, sumQ_map_div, sum_degree.
    rewrite Nat2Z.inj_mul, Nat2Z.inj_sub by lia. rewrite !inject_Z_mult.
    change (inject_Z (Z.of_nat 2)) with 2%Q.
    field. split.
    + change 0%Q with (inject_Z 0). rewrite inject_Z_injective. lia.
    + change 0%Q with (inject_Z 0). rewrite inject_Z_injective. lia.
Qed.

Lemma average_degree_centrality_edges_witness :
  ∃ q, average_degree_centrality scenario_cm true = inr (Fin q)
       ∧ (q == inject_Z (2 * Z.of_nat (nx.size scenario_cm))
               / inject_Z (Z.of_nat (length scenario_cm)
                           * Z.of_nat (length scenario_cm - 1)))%Q.
Proof.
  apply (proj2 (proj2 (average_degree_centrality_edges scenario_cm true))).
  simpl. lia.
Defined.

(** ** The rows of the report *)

Lemma join_of_dict (d1 d2 : list (string * cell)) (lab : Z) :
  existsb (λ c, bool_decide (c ∈ d2.*1)) d1.*1 = false →
  pd.join (pd.of_dict d1 [lab]) (pd.of_dict d2 [lab]) = inr (pd.of_dict (d1 ++ d2) [lab]).
Proof.
  intros Hdisj. unfold pd.join, pd.of_dict. cbn [pd.columns pd.index pd.rows].
  rewrite Hdisj. unfold pd.row_of. cbn [pd.columns pd.index pd.rows].
  simpl. rewrite decide_True by done. simpl. by rewrite !fmap_app.
Qed.

Lemma number_of_connected_nodes_by_type_inv agent (h h' : heap) df :
  number_of_connected_nodes_by_type agent h = (h', inr df) →
  ∃ cS cH cM : nat,
    df = pd.of_dict [("cN", Int (Z.of_nat cS + Z.of_nat cH + Z.of_nat cM));
                     ("cS", Int (Z.of_nat cS)); ("cH", Int (Z.of_nat cH));
                     ("cM", Int (Z.of_nat cM))]%string [1].
Proof.
  unfold number_of_connected_nodes_by_type. intros H.
  apply bind_inv in H as (? & cS & _ & H). apply bind_inv in H as (? & cH & _ & H).
  apply bind_inv in H as (? & cM & _ & H). apply ret_inv in H as ->. by eexists _, _, _.
Qed.

Lemma number_of_connections_by_type_inv agent flag (h h' : heap) df :
  number_of_connections_by_type agent flag h = (h', inr df) →
  ∃ s_m s_h h_h h_m : nat,
    df = pd.of_dict [("s_m", Int (Z.of_nat s_m)); ("s_h", Int (Z.of_nat s_h));
                     ("h_h", Int (Z.of_nat h_h)); ("h_m", Int (Z.of_nat h_m))]%string [1].
Proof.
  unfold number_of_connections_by_type. intros H.
  apply bind_inv in H as (? & ind & _ & H).
  apply bind_inv in H as (? & s_m & _ & H). apply bind_inv in H as (? & s_h & _ & H).
  apply bind_inv in H as (? & h_h & _ & H). apply bind_inv in H as (? & h_m & _ & H).
  apply ret_inv in H as ->. by eexists _, _, _, _.
Qed.

(** X17: a report that [fullStructuralAnalysis] returns has one row,
    labelled 1, with the thirteen fields in order: ten counts and sizes,
    with [cN = cS + cH + cM], and three floats. *)
Theorem fullStructuralAnalysis_row (agent : Agent) (connected_only : bool)
    (h h' : heap) (report : pd.DataFrame) :
  fullStructuralAnalysis agent connected_only h = (h', inr report) →
  ∃ (cS cH cM s_m s_h h_h h_m lscc lwcc : nat) (fh bc dc : npfloat),
    report = pd.of_dict
      [("cN", Int (Z.of_nat cS + Z.of_nat cH + Z.of_nat cM));
       ("cS", Int (Z.of_nat cS)); ("cH", Int (Z.of_nat cH)); ("cM", Int (Z.of_nat cM));
       ("s_m", Int (Z.of_nat s_m)); ("s_h", Int (Z.of_nat s_h));
       ("h_h", Int (Z.of_nat h_h)); ("h_m", Int (Z.of_nat h_m));
       ("len_LSCC", Int (Z.of_nat lscc)); ("len_LWCC", Int (Z.of_nat lwcc));
       ("flow_hierarchy", Float fh); ("av_betweenness_centrality", Float bc);
       ("av_degree_centrality", Float dc)]%string [1].
Proof.
  unfold fullStructuralAnalysis. intros H.
  apply bind_inv in H as (? & df1 & H1 & H).
  apply bind_inv in H as (? & df2 & H2 & H).
  apply bind_inv in H as (? & df3 & H3 & H).
  apply bind_inv in H as (? & G & _ & H).
  apply bind_inv in H as (? & lscc & _ & H).
  apply bind_inv in H as (? & lwcc & _ & H).
  apply bind_inv in H as (? & fh & _ & H).
  apply bind_inv in H as (? & bc & _ & H).
  apply bind_inv in H as (? & dc & _ & H).
  apply number_of_connected_nodes_by_type_inv in H1 as (cS & cH & cM & ->).
  apply number_of_connections_by_type_inv in H2 as (s_m & s_h & h_h & h_m & ->).
  apply lift_inv in H3. rewrite join_of_dict in H3 by reflexivity. injection H3 as <-.
  apply lift_inv in H. rewrite join_of_dict in H by reflexivity. injection H as <-.
  by eexists cS, cH, cM, s_m, s_h, h_h, h_m, lscc, lwcc, fh, bc, dc.
Qed.

Lemma fullStructuralAnalysis_row_witness :
  ∃ report,
    (fullStructuralAnalysis scenario_agent true [scenario_cm]).2 = inr report
    ∧ ∃ (cS cH cM s_m s_h h_h h_m lscc lwcc : nat) (fh bc dc : npfloat),
        report = pd.of_dict
          [("cN", Int (Z.of_nat cS + Z.of_nat cH + Z.of_nat cM));
           ("cS", Int (Z.of_nat cS)); ("cH", Int (Z.of_nat cH)); ("cM", Int (Z.of_nat cM));
           ("s_m", Int (Z.of_nat s_m)); ("s_h", Int (Z.of_nat s_h));
           ("h_h", Int (Z.of_nat h_h)); ("h_m", Int (Z.of_nat h_m));
           ("len_LSCC", Int (Z.of_nat lscc)); ("len_LWCC", Int (Z.of_nat lwcc));
           ("flow_hierarchy", Float fh); ("av_betweenness_centrality", Float bc);
           ("av_degree_centrality", Float dc)]%string [1].
Proof.
  eexists. split; [vm_compute; reflexivity|].
  eapply (fullStructuralAnalysis_row scenario_agent true [scenario_cm]).
  vm_compute. reflexivity.
Defined.

(** ** When the analysis returns *)

Lemma forallb_lt (k : nat) (l : list nat) :
  Forall (λ i, i < k)%nat l → forallb (λ i, bool_decide (i < k)%nat) l = true.
Proof.
  intros Hl. apply forallb_forall. intros i Hi%list_elem_of_In.
  apply bool_decide_eq_true. by apply (proj1 (Forall_forall _ _) Hl).
Qed.

Lemma take_ix_square n M (a b : list nat) :
  square n M → Forall (λ i, i < n)%nat a → Forall (λ i, i < n)%nat b →
  np.take_ix M a b = inr (map (λ i, map (λ j, np.entry M i j) b) a).
Proof.
  intros Hsq Ha Hb. unfold np.take_ix, np.nrows.
  rewrite (ncols_square n M Hsq). destruct Hsq as [-> _].
  rewrite !forallb_lt by done. by rewrite orb_true_r.
Qed.

Lemma intersection_in_range (n : nat) (c ixs : list nat) :
  Forall (λ i, i < n)%nat c → Forall (λ i, i < n)%nat (intersection (list_to_set c) ixs).
Proof.
  intros Hc. apply Forall_forall. intros v Hv. unfold intersection in Hv.
  apply elem_of_elements, elem_of_intersection in Hv as [Hv%elem_of_list_to_set _].
  by apply (proj1 (Forall_forall _ _) Hc).
Qed.

Lemma connections_by_type_val_returns n M agent (c : list nat) :
  square n M → Forall (λ i, i < n)%nat c →
  ∃ df, connections_by_type_val M agent (list_to_set c) = inr df.
Proof.
  intros Hsq Hc. unfold connections_by_type_val, connections_val.
  rewrite !(take_ix_square n) by (done || by apply intersection_in_range).
  by eexists.
Qed.

(** What the counting steps need is what [connected_nodes] needed. *)
Lemma counts_return_when_connected_returns M sensors motors c :
  (connected_val M sensors motors).2 = inr c →
  ∃ cS b cM, sensors_val M sensors = inr cS ∧ (dense_val M false).2 = inr b
             ∧ motors_val M motors = inr cM.
Proof.
  intros Hc. destruct (connected_val_inr _ _ _ _ Hc)
    as (rows & cols & b & Hst & Hs & Hm & Hrows & Hcols & Hb & _).
  destruct (proj2 (take_rows_inr_iff M sensors)) as [sub Hsub].
  { rewrite <- (length_strip M). apply take_rows_inr_iff. eauto. }
  assert (∃ cM, motors_val M motors = inr cM) as [cM HcM].
  { unfold motors_val, np.take_cols in *. rewrite ncols_strip in Hcols.
    destruct (forallb _ _); [eauto|done]. }
  eexists _, b, cM. split_and!; [|by rewrite dense_val_false_ok|done].
  unfold sensors_val. by rewrite Hsub.
Qed.

Lemma square_take_ix M (c : list nat) :
  square (length c) (map (λ i, map (λ j, np.entry M i j) c) c).
Proof.
  split; [by rewrite length_map|]. apply Forall_forall.
  intros row (i & -> & _)%list_elem_of_fmap. by rewrite length_map.
Qed.

Lemma from_numpy_matrix_square n (A : ndarray) :
  square n A → nx.from_numpy_matrix A = inr A.
Proof.
  intros [Hlen Hrows]. unfold nx.from_numpy_matrix.
  assert (forallb (λ row, bool_decide (length row = length A)) A = true) as ->; [|done].
  apply forallb_forall. intros row Hrow%list_elem_of_In. apply bool_decide_eq_true.
  rewrite Hlen. by apply (proj1 (Forall_forall _ _) Hrows).
Qed.

Lemma size_pos_nonempty (G : nx.DiGraph) : (0 < nx.size G)%nat → G ≠ [].
Proof. intros Hsize ->. vm_compute in Hsize. lia. Qed.

Lemma len_LSCC_returns (G : nx.DiGraph) : G ≠ [] → ∃ k, len_LSCC G = inr k.
Proof.
  intros HG. unfold len_LSCC.
  destruct (max_by_len_inr (nx.strongly_connected_components G)) as [c ->];
    [by apply components_nonempty, nodes_nonempty|]. by eexists.
Qed.

Lemma len_LWCC_returns (G : nx.DiGraph) : G ≠ [] → ∃ k, len_LWCC G = inr k.
Proof.
  intros HG. unfold len_LWCC.
  destruct (max_by_len_inr (nx.weakly_connected_components G)) as [c ->];
    [by apply components_nonempty, nodes_nonempty|]. by eexists.
Qed.

Lemma flow_hierarchy_returns (G : nx.DiGraph) :
  (0 < nx.size G)%nat → ∃ x, nx.flow_hierarchy G = inr x.
Proof.
  intros Hsize. unfold nx.flow_hierarchy, py_truediv.
  destruct (decide (Z.of_nat (nx.size G) = 0)) as [|_]; [lia|]. by eexists.
Qed.

Lemma average_degree_centrality_returns (G : nx.DiGraph) flag :
  G ≠ [] → ∃ x, average_degree_centrality G flag = inr x.
Proof.
  intros HG. unfold average_degree_centrality, py_truediv.
  assert (length (nx.degree_centrality G) = length G) as ->.
  { unfold nx.degree_centrality. case_decide; by rewrite length_map, length_nodes. }
  destruct (decide (Z.of_nat (length G) = 0)) as [Hz|_]; [|by eexists].
  destruct G; [done|simpl in Hz; lia].
Qed.

Lemma average_betweenness_centrality_returns n (G : nx.DiGraph) (h : heap) :
  G ≠ [] → square n G →
  ∃ k x, average_betweenness_centrality G true h = (h ++ k, inr x).
Proof.
  intros HG Hsq. rewrite (average_betweenness_centrality_run G h HG).
  rewrite dense_val_false_ok by by rewrite (strip_loop_square n G Hsq).
  cbn [fst snd]. rewrite (flags_val_square n) by by apply square_strip.
  by eexists _, _.
Qed.

(** The steps of [fullStructuralAnalysis] up to the graph. *)
Lemma fullStructuralAnalysis_prefix agent (h : heap) n M c
    (k : nx.DiGraph → pd.DataFrame → py pd.DataFrame) :
  h !! cm agent = Some M → square n M →
  (connected_val M (sensor_ixs agent) (motor_ixs agent)).2 = inr c → c ≠ [] →
  ∃ h1 df,
    (df1 ← number_of_connected_nodes_by_type agent;
     df2 ← number_of_connections_by_type agent true;
     df ← lift (pd.join df1 df2);
     G ← (ind_con ← connected_nodes agent;
          M ← Store.get (cm agent);
          ix ← lift (np.index_array ind_con);
          cm_connected ← lift (np.take_ix M ix ix);
          lift (nx.from_numpy_matrix cm_connected));
     k G df) h
    = k (map (λ i, map (λ j, np.entry M i j) c) c) df (h ++ h1)
    ∧ ∃ d, df = pd.of_dict d [1]
           ∧ d.*1 = ["cN"; "cS"; "cH"; "cM"; "s_m"; "s_h"; "h_h"; "h_m"]%string.
Proof.
  intros Hl Hsq Hc Hne.
  assert (np.index_array c = inr c) as Hix by by destruct c.
  pose proof (connected_val_in_range n M _ _ c Hsq Hc) as Hrange.
  destruct (counts_return_when_connected_returns _ _ _ _ Hc)
    as (cS & b & cM & HcS & Hb & HcM).
  destruct (connections_by_type_val_returns n M agent c Hsq Hrange) as [df2 Hdf2].
  assert (∀ k, (h ++ k) !! cm agent = Some M) as Hl'
    by (intros ?; by apply lookup_app_l_Some).
  erewrite bind_inr;
    [|by eapply (number_of_connected_nodes_by_type_run _ _ M cS b cM)].
  erewrite bind_inr; last first.
  { rewrite (number_of_connections_by_type_run _ _ _ M (Hl' _)).
    cbv zeta. rewrite Hc, Hdf2. reflexivity. }
  unfold connections_by_type_val in Hdf2. py_unfold.
  repeat (destruct (connections_val M _ _) in Hdf2; [done|]).
  injection Hdf2 as <-.
  rewrite join_of_dict by reflexivity.
  rewrite (connected_nodes_run _ _ M) by (by rewrite <- app_assoc).
  rewrite Hc. rewrite <- !app_assoc, Hl', Hix.
  rewrite (take_ix_square n M c c Hsq Hrange Hrange).
  rewrite (from_numpy_matrix_square (length c)) by apply square_take_ix.
  eexists _, _. split; [reflexivity|].
  eexists. split; [reflexivity|done].
Qed.

Lemma lift_bind_inr {A B : Type} (r : res A) (a : A) (f : A → py B) (h : heap) :
  r = inr a → (lift r ≫= f) h = f a h.
Proof. by intros ->. Qed.

Lemma lift_bind_inl {A B : Type} (r : res A) (e : exn) (f : A → py B) (h : heap) :
  r = inl e → (lift r ≫= f) h = (h, inl e).
Proof. by intros ->. Qed.

(** X18: with [connected_only=True], on a square matrix for which
    [connected_nodes] returns [c], the analysis returns a report exactly
    when the graph of the connected nodes, [cm[np.ix_(c, c)]], has an edge.
    Without a connected node it raises [IndexError] (the matrix is indexed
    by the float64 array of no node); with connected nodes and no edge
    among them [flow_hierarchy] raises [ZeroDivisionError]. *)
Theorem fullStructuralAnalysis_returns_iff (agent : Agent) (h h1 : heap)
    (n : nat) (M : ndarray) (c : list nat) :
  h !! cm agent = Some M → square n M →
  connected_nodes agent h = (h1, inr c) →
  let G := map (λ i, map (λ j, np.entry M i j) c) c in
  ((∃ h' report, fullStructuralAnalysis agent true h = (h', inr report))
   ↔ (0 < nx.size G)%nat)
  ∧ (c = [] → ∃ h', fullStructuralAnalysis agent true h = (h', inl IndexError))
  ∧ (c ≠ [] → nx.size G = 0%nat →
     ∃ h', fullStructuralAnalysis agent true h = (h', inl ZeroDivisionError)).
Proof.
  intros Hl Hsq Hrun G. destruct (decide (c = [])) as [->|Hne].
  - destruct (fullStructuralAnalysis_empty agent h h1 Hrun) as [h' Hraise].
    split_and!; [|by eauto|done]. split.
    + intros (h'' & report & Hret). by rewrite Hraise in Hret.
    + intros Hsize. vm_compute in Hsize. lia.
  - rewrite (connected_nodes_run _ _ M Hl) in Hrun.
    apply pair_equal_spec in Hrun as [_ Hc].
    set (k := λ (G : nx.DiGraph) (df : pd.DataFrame),
      lscc ← lift (len_LSCC G);
      lwcc ← lift (len_LWCC G);
      fh ← lift (nx.flow_hierarchy G);
      bc ← average_betweenness_centrality G true;
      dc ← lift (average_degree_centrality G true);
      lift (pd.join df (pd.of_dict
        [("len_LSCC", Int (Z.of_nat lscc));
         ("len_LWCC", Int (Z.of_nat lwcc));
         ("flow_hierarchy", Float fh);
         ("av_betweenness_centrality", Float bc);
         ("av_degree_centrality", Float dc)]%string [1]))).
    destruct (fullStructuralAnalysis_prefix agent h n M c k Hl Hsq Hc Hne)
      as (h2 & df & Heq & d & -> & Hd).
    assert (fullStructuralAnalysis agent true h = k G (pd.of_dict d [1]) (h ++ h2))
      as -> by exact Heq.
    clear Heq. unfold k.
    assert (G ≠ []) as HG by (unfold G; by destruct c).
    destruct (len_LSCC_returns G HG) as [lscc Hlscc].
    destruct (len_LWCC_returns G HG) as [lwcc Hlwcc].
    rewrite (lift_bind_inr _ _ _ _ Hlscc), (lift_bind_inr _ _ _ _ Hlwcc).
    assert (nx.size G = 0%nat →
            (lift (nx.flow_hierarchy G) ≫= λ fh,
               average_betweenness_centrality G true ≫= λ bc,
               lift (average_degree_centrality G true) ≫= λ dc,
               lift (pd.join (pd.of_dict d [1]) (pd.of_dict
                 [("len_LSCC", Int (Z.of_nat lscc));
                  ("len_LWCC", Int (Z.of_nat lwcc));
                  ("flow_hierarchy", Float fh);
                  ("av_betweenness_centrality", Float bc);
                  ("av_degree_centrality", Float dc)]%string [1]))) (h ++ h2)
            = (h ++ h2, inl ZeroDivisionError)) as Hzero.
    { intros Hz. apply lift_bind_inl. unfold nx.flow_hierarchy, py_truediv.
      by rewrite Hz. }
    split_and!; [|done|by intros _ Hz; rewrite (Hzero Hz); eauto]. split.
    + intros (h' & report & Hret).
      destruct (decide (nx.size G = 0)%nat) as [Hz|]; [|lia].
      by rewrite (Hzero Hz) in Hret.
    + intros Hsize.
      destruct (flow_hierarchy_returns G Hsize) as [fh Hfh].
      destruct (average_betweenness_centrality_returns (length c) G (h ++ h2) HG
                  (square_take_ix M c)) as (k' & bc & Hbc).
      destruct (average_degree_centrality_returns G true HG) as [dc Hdc].
      rewrite (lift_bind_inr _ _ _ _ Hfh), (bind_inr _ _ _ _ _ Hbc),
        (lift_bind_inr _ _ _ _ Hdc).
      rewrite join_of_dict by (rewrite Hd; reflexivity).
      by eexists _, _.
Qed.

Lemma fullStructuralAnalysis_returns_iff_witness :
  ((∃ h' report,
      fullStructuralAnalysis scenario_agent true [scenario_cm] = (h', inr report))
   ↔ (0 < nx.size (map (λ i, map (λ j, np.entry scenario_cm i j) [0; 1; 2; 3]%nat)
                       [0; 1; 2; 3]%nat))%nat)
  ∧ ∃ h', fullStructuralAnalysis three_agent true [zero_cm] = (h', inl IndexError).
Proof.
  split.
  - destruct (fullStructuralAnalysis_returns_iff scenario_agent [scenario_cm]
                [scenario_cm; strip scenario_cm; strip scenario_cm] 4 scenario_cm
                [0; 1; 2; 3]%nat) as [Hiff _].
    + reflexivity.
    + split; [reflexivity|repeat constructor].
    + vm_compute. reflexivity.
    + exact Hiff.
  - destruct (fullStructuralAnalysis_returns_iff three_agent [zero_cm]
                [zero_cm; strip zero_cm; strip zero_cm] 3 zero_cm []) as (_ & Hempty & _).
    + reflexivity.
    + split; [reflexivity|repeat constructor].
    + vm_compute. reflexivity.
    + by apply Hempty.
Defined.

(** ** Instances of the lemmas on the counts and on [connected_nodes] *)

Lemma number_of_densely_connected_nodes_length_witness :
  (number_of_densely_connected_nodes 0 false [scenario_cm]).2 = inr 2%nat
  ∧ (densely_connected_nodes 0 false [scenario_cm]).2 = inr [1; 2]%nat
  ∧ (2 = length [1; 2]%nat)%nat.
Proof.
  split; [vm_compute; reflexivity|]. split; [vm_compute; reflexivity|].
  apply (number_of_densely_connected_nodes_length 0 false [scenario_cm]
           [scenario_cm; strip scenario_cm] [scenario_cm; strip scenario_cm]).
  - vm_compute. reflexivity.
  - vm_compute. reflexivity.
Defined.

Lemma connected_nodes_sorted_witness :
  (connected_nodes scenario_agent [scenario_cm]).2 = inr [0; 1; 2; 3]%nat
  ∧ Sorted le [0; 1; 2; 3]%nat.
Proof.
  split; [vm_compute; reflexivity|].
  apply (connected_nodes_sorted scenario_agent [scenario_cm]
           [scenario_cm; strip scenario_cm; strip scenario_cm]).
  vm_compute. reflexivity.
Defined.

Lemma connected_nodes_returns_witness :
  ∃ c, connected_nodes scenario_agent [scenario_cm]
       = ([scenario_cm] ++ [strip scenario_cm; strip scenario_cm], inr c).
Proof.
  apply (connected_nodes_returns scenario_agent [scenario_cm] 4 scenario_cm).
  - reflexivity.
  - vm_compute. repeat constructor.
  - discriminate.
  - discriminate.
  - vm_compute. repeat constructor.
  - vm_compute. repeat constructor.
Defined.

Lemma cN_is_length_without_self_loops_witness :
  ∃ h1 df, number_of_connected_nodes_by_type scenario_agent [scenario_cm] = (h1, inr df)
           ∧ pd.column df "cN" = Some [Int (Z.of_nat (length [0; 1; 2; 3]%nat))].
Proof.
  apply (cN_is_length_without_self_loops scenario_agent [scenario_cm]
           [scenario_cm; strip scenario_cm; strip scenario_cm] 4 scenario_cm).
  - reflexivity.
  - vm_compute. repeat constructor.
  - intros v [Hv|Hv]; apply list_elem_of_singleton in Hv as ->; reflexivity.
  - vm_compute. reflexivity.
Defined.
